(** * rls-vscode: the server-process supervisor of [src/extension.ts]

    A shallow embedding of the extension's entry file: the launch strategy
    chosen from the environment, the listeners that [makeRlsProcess] hangs on
    the child process and on the log stream, the diagnostics counter, and the
    [rls.deglob] command.

    Conventions of the embedding.
    - Host calls ([window.showWarningMessage], [console.error],
      [lcOutputChannel.append], ...) are recorded as a trace of [Effect]s, in
      the order the code performs them.
    - A callback is a function from its closure state and its argument to the
      effects it performs, how it completes ([Normal] or [Throw]), and the
      new closure state.
    - JavaScript numbers that only ever hold integers ([runningDiagnostics],
      [Date.now()]) are [Z]. *)

From Stdlib Require Import ZArith String Ascii List Lia Bool.
From Stdlib Require Import Numbers.DecimalString Numbers.DecimalZ.
From stdpp Require Import base gmap strings list.
Import ListNotations.

Local Open Scope string_scope.
Local Open Scope Z_scope.

(** ** Host effects and completions *)

(** The editor's output channel, an object of the host. *)
Record OutputChannel := { channel_id : nat }.

Inductive Effect : Type :=
| SetStatusBarMessage (msg : string)
| ShowWarningMessage (msg : string)
| ConsoleError (args : list string)
| StartSpinner (msg : string)
| StopSpinner (msg : string)
| ChannelAppend (ch : OutputChannel) (text : string)
| ChannelShow (ch : OutputChannel) (preserveFocus : bool)
| CreateWriteStream (path : string) (flags : string)
| StreamWrite (path : string) (text : string)
| StreamEnd (path : string)
| SendRequest (method : string) (uri : string) (range : Z * Z).

(** Whether an effect acts on the output channel. *)
Definition on_channel (e : Effect) : bool :=
  match e with
  | ChannelAppend _ _ | ChannelShow _ _ => true
  | _ => false
  end.

(** The effects of a trace that act on the output channel, in order. *)
Definition channel_effects (effs : list Effect) : list Effect :=
  List.filter on_channel effs.

(** ** Diagnostics counter ([diagnosticCounter], lines 119-133) *)

Module Diagnostics.

Inductive Notification := DiagnosticsBegin | DiagnosticsEnd.

(** The closure variable [runningDiagnostics] (line 120).  The two
    listeners are registered once the client is ready (line 121); what
    follows is about the notifications they receive. *)
Definition init : Z := 0.

(** Listener of [rustDocument/diagnosticsBegin]:
    [runningDiagnostics++; startSpinner("RLS analysis: working")]. *)
Definition onBegin (runningDiagnostics : Z) : Z * list Effect :=
  (runningDiagnostics + 1, [StartSpinner "RLS analysis: working"]).

(** Listener of [rustDocument/diagnosticsEnd]:
    [runningDiagnostics--; if (runningDiagnostics <= 0) stopSpinner(...)]. *)
Definition onEnd (runningDiagnostics : Z) : Z * list Effect :=
  let runningDiagnostics := runningDiagnostics - 1 in
  (runningDiagnostics,
   if runningDiagnostics <=? 0 then [StopSpinner "RLS analysis: done"] else []).

Definition handle (runningDiagnostics : Z) (n : Notification) : Z * list Effect :=
  match n with
  | DiagnosticsBegin => onBegin runningDiagnostics
  | DiagnosticsEnd => onEnd runningDiagnostics
  end.

(** Modelled from the spec: the spinner module ([./spinner]) is not part of
    the sources at hand.  The spec says that the start-spinner action enters
    Busy and that the stop-spinner action enters (or stays in) Idle; no other
    action of the aggregator touches the status. *)
Definition spinner (busy : bool) (e : Effect) : bool :=
  match e with
  | StartSpinner _ => true
  | StopSpinner _ => false
  | _ => busy
  end.

Record State := { counter : Z; busy : bool }.

Definition initial : State := {| counter := init; busy := false |}.

Definition step (st : State) (n : Notification) : State :=
  let '(c, effs) := handle (counter st) n in
  {| counter := c; busy := fold_left spinner effs (busy st) |}.

(** The notifications are handled one at a time, in order. *)
Definition run (l : list Notification) : State := fold_left step l initial.

(** The running count the way the spec words it: begins minus ends, each
    decrement floored at 0. *)
Definition floored_step (c : Z) (n : Notification) : Z :=
  match n with
  | DiagnosticsBegin => c + 1
  | DiagnosticsEnd => Z.max 0 (c - 1)
  end.

Definition floored_count (l : list Notification) : Z :=
  fold_left floored_step l 0.

(** Begins minus ends, not floored. *)
Definition raw_step (c : Z) (n : Notification) : Z :=
  match n with
  | DiagnosticsBegin => c + 1
  | DiagnosticsEnd => c - 1
  end.

Definition raw_count (l : list Notification) : Z := fold_left raw_step l 0.

(** Every end follows a begin that is still outstanding: no prefix has more
    ends than begins. *)
Fixpoint well_formed_from (c : Z) (l : list Notification) : bool :=
  match l with
  | [] => true
  | DiagnosticsBegin :: l => well_formed_from (c + 1) l
  | DiagnosticsEnd :: l => (0 <? c) && well_formed_from (c - 1) l
  end.

Definition well_formed (l : list Notification) : bool := well_formed_from 0 l.

Definition ends_with_begin (l : list Notification) : bool :=
  match last l with
  | Some DiagnosticsBegin => true
  | _ => false
  end.

End Diagnostics.

(** ** JavaScript values the file inspects *)

(** A value that the code only ever converts to a string or tests for
    [undefined]. *)
Inductive JsValue : Type :=
| JsUndefined
| JsString (s : string)
| JsErrorObject (name message : string).

(** [Error.prototype.toString]: the name and the message joined by a colon,
    or whichever of the two is not empty. *)
Definition Error_toString (name message : string) : string :=
  match name, message with
  | EmptyString, _ => message
  | _, EmptyString => name
  | _, _ => name +:+ ": " +:+ message
  end.

(** [ToString], as applied by [+] with a string operand. *)
Definition ToString (v : JsValue) : string :=
  match v with
  | JsUndefined => "undefined"
  | JsString s => s
  | JsErrorObject name message => Error_toString name message
  end.

(** [err.code] of an error event: absent, a string such as ["ENOENT"], or
    a number. *)
Inductive ErrorCode : Type :=
| CodeUndefined
| CodeString (s : string)
| CodeNumber (n : Z).

Record JsError := {
  code : ErrorCode;
  message : string;
  error_name : string
}.

(** [code == "ENOENT"] with JavaScript's loose equality: [undefined] equals
    no string, and a number is compared with [ToNumber("ENOENT")], which is
    NaN and equals nothing. *)
Definition code_is_ENOENT (c : ErrorCode) : bool :=
  match c with
  | CodeString s => String.eqb s "ENOENT"
  | CodeUndefined => false
  | CodeNumber _ => false
  end.

(** How a callback completes. *)
Inductive Completion : Type :=
| Normal
| Throw (err : JsError).

(** A settled promise. *)
Inductive Settled (A : Type) : Type :=
| Fulfilled (value : A)
| Rejected (reason : JsValue).
Arguments Fulfilled {A} value.
Arguments Rejected {A} reason.

(** A chunk of the child's stderr: text, or a buffer of raw bytes. *)
Inductive Chunk : Type :=
| ChunkString (s : string)
| ChunkBuffer (bytes : list Byte.byte).

(** [Number.prototype.toString] on an integer (below 1e21 in magnitude, as
    every value of [Date.now()] is): the decimal digits, with a minus sign
    for a negative number. *)
Definition Number_toString (n : Z) : string :=
  NilZero.string_of_int (Z.to_int n).

(** ** Configuration ([RLSConfiguration], [RevealOutputChannelOn]) *)

Inductive RevealOutputChannelOn : Type :=
| RevealInfo
| RevealWarn
| RevealError
| RevealNever.

(** The fields of [CONFIGURATION] that [extension.ts] reads. *)
Record RLSConfiguration := {
  logToFile : bool;
  showStderrInOutputChannel : bool;
  revealOutputChannelOn : RevealOutputChannelOn
}.

(** What the file takes from its libraries without defining it: the numeric
    value of the members of the enum [RevealOutputChannelOn]
    (vscode-languageclient), and the UTF-8 decoding of a buffer
    ([Buffer.prototype.toString]). *)
Class Runtime := {
  reveal_level : RevealOutputChannelOn -> Z;
  utf8_decode : list Byte.byte -> string
}.

(** The enum as vscode-languageclient declares it (Info = 1, Warn = 2,
    Error = 3, Never = 4), with a decoder that is right on ASCII input. *)
Definition languageclient_runtime : Runtime := {|
  reveal_level r :=
    match r with
    | RevealInfo => 1
    | RevealWarn => 2
    | RevealError => 3
    | RevealNever => 4
    end;
  utf8_decode := string_of_list_byte
|}.

(** ** The launcher ([makeRlsProcess], lines 26-79) *)

Module Launcher.

(** [process.env.RLS_PATH] and [process.env.RLS_ROOT]: [None] is
    [undefined]. *)
Record Env := {
  RLS_PATH : option string;
  RLS_ROOT : option string
}.

(** The three ways of obtaining the child process. *)
Inductive Launch : Type :=
| Spawn (command : string) (args : list string) (cwd : option string)
| RunRlsViaRustup.

(** Lines 31-37.  [if (rls_path)] tests truthiness: [undefined] and the
    empty string both fail the test. *)
Definition launch (env : Env) : Launch :=
  match RLS_PATH env with
  | Some (String _ _ as rls_path) => Spawn rls_path [] None
  | _ =>
    match RLS_ROOT env with
    | Some (String _ _ as rls_root) =>
        Spawn "cargo" ["run"; "--release"] (Some rls_root)
    | _ => RunRlsViaRustup
    end
  end.

(** The handle of a child process. *)
Record ChildProcess := { handle : nat }.

(** What the surroundings supply to one call of [makeRlsProcess]. *)
Record World := {
  env : Env;
  (** the object [child_process.spawn] returns *)
  spawned : ChildProcess;
  (** how the promise of [runRlsViaRustup()] settles *)
  rustup : Settled ChildProcess;
  (** [workspace.rootPath] *)
  rootPath : option string;
  (** [Date.now()] *)
  now : Z
}.

(** Lines 30-37: [childProcessPromise].  [Promise.resolve] of a spawned
    process is fulfilled. *)
Definition childProcessPromise (w : World) : Settled ChildProcess :=
  match launch (env w) with
  | Spawn _ _ _ => Fulfilled (spawned w)
  | RunRlsViaRustup => rustup w
  end.

(** [workspace.rootPath + '/rls' + Date.now() + '.log'] (line 50). *)
Definition logPath (rootPath : option string) (now : Z) : string :=
  match rootPath with Some r => r | None => "undefined" end
  +:+ "/rls" +:+ Number_toString now +:+ ".log".

(** The closure of the listeners registered by the [then] callback. *)
Record Session := {
  childProcess : ChildProcess;
  (** the parameter [lcOutputChannel] of this call *)
  lcOutputChannel : option OutputChannel;
  (** [logPath], when the log stream was created *)
  logStream : option string;
  (** how many [data] listeners the [open] listener has added to stderr *)
  logListeners : nat;
  (** whether the listener of lines 63-72 is registered *)
  showListener : bool
}.

Inductive Event : Type :=
| ProcessError (err : JsError)     (* childProcess emits 'error' *)
| LogOpen                          (* logStream emits 'open' *)
| LogError (err : JsValue)         (* logStream emits 'error' *)
| StderrData (chunk : Chunk).      (* childProcess.stderr emits 'data' *)

Section WithRuntime.
Context {rt : Runtime}.

(** Lines 40-47. *)
Definition onProcessError (err : JsError) : list Effect * Completion :=
  if code_is_ENOENT (code err) then
    ([ConsoleError ["Could not spawn RLS process: "; message err];
      ShowWarningMessage "Could not start RLS"], Normal)
  else ([], Throw err).

(** Lines 56-59. *)
Definition onLogError (logPath : string) (err : JsValue) : list Effect :=
  [ConsoleError ["Couldn't write to " +:+ logPath +:+ " (" +:+ ToString err +:+ ")"];
   StreamEnd logPath].

(** [chunk.toString()] (line 54). *)
Definition chunk_toString (chunk : Chunk) : string :=
  match chunk with
  | ChunkString s => s
  | ChunkBuffer b => utf8_decode b
  end.

(** Lines 53-55. *)
Definition onLogData (logPath : string) (chunk : Chunk) : list Effect :=
  [StreamWrite logPath (chunk_toString chunk)].

(** Lines 63-72. *)
Definition onShowData (CONFIGURATION : RLSConfiguration)
    (lcOutputChannel : option OutputChannel) (data : Chunk) : list Effect :=
  match lcOutputChannel with
  | Some ch =>
      ChannelAppend ch
        (match data with
         | ChunkString s => s
         | ChunkBuffer b => utf8_decode b
         end)
      :: (if reveal_level (revealOutputChannelOn CONFIGURATION)
             <=? reveal_level RevealInfo
          then [ChannelShow ch true] else [])
  | None => []
  end.

(** Lines 39-74: the [then] callback. *)
Definition onChildProcess (CONFIGURATION : RLSConfiguration) (w : World)
    (lcOutputChannel : option OutputChannel) (childProcess : ChildProcess)
    : list Effect * Session :=
  let logPath := logPath (rootPath w) (now w) in
  (if logToFile CONFIGURATION then [CreateWriteStream logPath "w+"] else [],
   {| childProcess := childProcess;
      lcOutputChannel := lcOutputChannel;
      logStream := if logToFile CONFIGURATION then Some logPath else None;
      logListeners := 0;
      showListener := showStderrInOutputChannel CONFIGURATION |}).

(** The outcome of one call of [makeRlsProcess]. *)
Record Launched := {
  effects : list Effect;
  (** the promise handed back to the caller *)
  returned : Settled (option ChildProcess);
  (** present when the [then] callback ran *)
  session : option Session
}.

(** Lines 26-79. *)
Definition makeRlsProcess (CONFIGURATION : RLSConfiguration) (w : World)
    (lcOutputChannel : option OutputChannel) : Launched :=
  match childProcessPromise w with
  | Fulfilled childProcess =>
      let '(effs, s) := onChildProcess CONFIGURATION w lcOutputChannel childProcess in
      {| effects := effs;
         returned := Fulfilled (Some childProcess);
         session := Some s |}
  | Rejected _ =>
      {| effects := [SetStatusBarMessage "RLS could not be started"];
         returned := Fulfilled None;
         session := None |}
  end.

(** One event reaching the listeners of a session.  The listeners of
    stderr run in the order of their registration: the one of line 63 was
    registered by the [then] callback itself, those of line 53 later, when
    the log stream opened. *)
Definition dispatch (CONFIGURATION : RLSConfiguration) (s : Session) (e : Event)
    : Session * list Effect * Completion :=
  match e with
  | ProcessError err =>
      let '(effs, c) := onProcessError err in (s, effs, c)
  | LogOpen =>
      match logStream s with
      | Some _ =>
          ({| childProcess := childProcess s;
              lcOutputChannel := lcOutputChannel s;
              logStream := logStream s;
              logListeners := S (logListeners s);
              showListener := showListener s |}, [], Normal)
      | None => (s, [], Normal)
      end
  | LogError err =>
      match logStream s with
      | Some logPath => (s, onLogError logPath err, Normal)
      | None => (s, [], Normal)
      end
  | StderrData chunk =>
      (s,
       ((if showListener s then onShowData CONFIGURATION (lcOutputChannel s) chunk
         else [])
        ++ match logStream s with
           | Some logPath =>
               concat (replicate (logListeners s) (onLogData logPath chunk))
           | None => []
           end)%list,
       Normal)
  end.

(** A run of events; a throwing listener ends it. *)
Fixpoint deliver (CONFIGURATION : RLSConfiguration) (s : Session) (es : list Event)
    : Session * list Effect * Completion :=
  match es with
  | [] => (s, [], Normal)
  | e :: es =>
      match dispatch CONFIGURATION s e with
      | (s', effs, Normal) =>
          let '(s'', effs', c) := deliver CONFIGURATION s' es in
          (s'', (effs ++ effs')%list, c)
      | r => r
      end
  end.

End WithRuntime.

End Launcher.

(** ** The files behind the log streams

    The part of Node's [fs] that the log stream exercises, as its
    documentation describes it: [createWriteStream] with the flags ['w+']
    creates the file or truncates it, [write] appends to the file of a stream
    that has not been ended, [end] closes the stream. *)

Module LogFiles.

Record FS := {
  files : gmap string string;
  writable : gset string
}.

Definition apply (fs : FS) (e : Effect) : FS :=
  match e with
  | CreateWriteStream path flags =>
      {| files :=
           if String.eqb flags "w+" then <[path := ""]> (files fs)
           else <[path := default "" (files fs !! path)]> (files fs);
         writable := {[path]} ∪ writable fs |}
  | StreamWrite path text =>
      if decide (path ∈ writable fs) then
        {| files := alter (fun content => content +:+ text) path (files fs);
           writable := writable fs |}
      else fs
  | StreamEnd path =>
      {| files := files fs; writable := writable fs ∖ {[path]} |}
  | _ => fs
  end.

Definition run (fs : FS) (effs : list Effect) : FS := fold_left apply effs fs.

(** The paths an effect writes to or opens. *)
Definition touches (e : Effect) : option string :=
  match e with
  | CreateWriteStream path _ | StreamWrite path _ | StreamEnd path => Some path
  | _ => None
  end.

(** The characters of a rendered integer: the decimal digits and the minus
    sign. *)
Definition numeric (c : ascii) : bool :=
  match c with
  | "0" | "1" | "2" | "3" | "4" | "5" | "6" | "7" | "8" | "9" | "-" => true
  | _ => false
  end%char.

End LogFiles.

(** ** Activation ([activate], lines 81-108) *)

Module Activate.
Import Launcher.

(** The variable [lcOutputChannel] of [activate] (line 85), which the arrow
    function [serverOptions] captures, and the session of the last launch. *)
Record Closure := {
  lcOutputChannel : option OutputChannel;
  current : option Session
}.

(** Line 85: [let lcOutputChannel = null]. *)
Definition initial : Closure := {| lcOutputChannel := None; current := None |}.

Inductive Step : Type :=
| AssignOutputChannel (ch : OutputChannel)  (* line 100 *)
| ServerOptions (w : World)                 (* the client calls [serverOptions] (line 89) *)
| Emit (e : Event).                         (* an event for the listeners of the session *)

Section WithRuntime.
Context {rt : Runtime}.

Definition step (CONFIGURATION : RLSConfiguration) (c : Closure) (st : Step)
    : Closure * list Effect * Completion :=
  match st with
  | AssignOutputChannel ch =>
      ({| lcOutputChannel := Some ch; current := current c |}, [], Normal)
  | ServerOptions w =>
      (* () => makeRlsProcess(lcOutputChannel): the variable is read now *)
      let r := makeRlsProcess CONFIGURATION w (lcOutputChannel c) in
      ({| lcOutputChannel := lcOutputChannel c;
          current := match session r with Some s => Some s | None => current c end |},
       effects r, Normal)
  | Emit e =>
      match current c with
      | Some s =>
          let '(s', effs, k) := dispatch CONFIGURATION s e in
          ({| lcOutputChannel := lcOutputChannel c; current := Some s' |}, effs, k)
      | None => (c, [], Normal)
      end
  end.

(** The effects of each step of a run, up to the first listener that
    throws. *)
Fixpoint steps (CONFIGURATION : RLSConfiguration) (c : Closure) (l : list Step)
    : list (list Effect) :=
  match l with
  | [] => []
  | st :: l =>
      match step CONFIGURATION c st with
      | (c', effs, Normal) => effs :: steps CONFIGURATION c' l
      | (_, effs, Throw _) => [effs]
      end
  end.

End WithRuntime.

(** Steps other than a call of [serverOptions]. *)
Definition no_launch (st : Step) : bool :=
  match st with
  | ServerOptions _ => false
  | _ => true
  end.

(** The session of the last launch, if any, was handed a null channel. *)
Definition quiet (c : Closure) : Prop :=
  forall s, current c = Some s -> Launcher.lcOutputChannel s = None.

End Activate.

(** ** The deglob command ([registerCommands], lines 135-144) *)

Module Deglob.

(** What the command reads of the text editor: the URI of its document, as
    a string, and its selection (start and end offsets). *)
Record TextEditor := {
  uri : string;
  selection : Z * Z
}.

(** What the call [lc.sendRequest(...)] of line 137 does: it returns a
    promise, which settles later, or it throws, as the language client does
    while it is not ready (the command is registered on line 103, before the
    client is started on line 106). *)
Inductive Sent : Type :=
| SendThrows (err : JsError)
| SendReturns (outcome : Settled JsValue).

(** Lines 136-137 and 142: the command handler calls [sendRequest], hangs
    the two continuations on the promise it gets, and returns.  The call is
    not inside a [try]: what it throws leaves the handler. *)
Definition command (textEditor : TextEditor) (sent : Sent)
    : list Effect * Completion :=
  ([SendRequest "rustWorkspace/deglob" (uri textEditor) (selection textEditor)],
   match sent with
   | SendThrows err => Throw err
   | SendReturns _ => Normal
   end).

(** Lines 138-141: the two continuations of the request. *)
Definition onSettled (outcome : Settled JsValue) : list Effect * Completion :=
  match outcome with
  | Fulfilled _ => ([], Normal)
  | Rejected reason =>
      ([ShowWarningMessage ("deglob command failed: " +:+ ToString reason)], Normal)
  end.

(** A command invocation together with the settling of its request, when
    there is one: the effects of both, and the completion of the handler if
    it throws, of the continuation otherwise. *)
Definition invoke (textEditor : TextEditor) (sent : Sent)
    : list Effect * Completion :=
  let '(effs1, k1) := command textEditor sent in
  match k1, sent with
  | Normal, SendReturns outcome =>
      let '(effs2, k2) := onSettled outcome in ((effs1 ++ effs2)%list, k2)
  | _, _ => (effs1, k1)
  end.

Definition warning_text (e : Effect) : option string :=
  match e with ShowWarningMessage msg => Some msg | _ => None end.

(** The warnings of a trace, in order. *)
Definition warnings (effs : list Effect) : list string :=
  omap warning_text effs.


End Deglob.

(** ** The turn after a launch

    What is pending when the synchronous part of [makeRlsProcess] has
    returned, and the order in which Node runs it.  The [then] callback of
    line 39, which registers the listeners, and the [catch] callback of line
    76 are promise jobs.  When the executable cannot be spawned,
    [child_process.spawn] (line 32) has queued the emission of the [error]
    event on the child with [process.nextTick].  Node processes the
    [nextTick] queue before the promise jobs; and an [error] event emitted on
    an object that has no listener for it is thrown. *)

Module Turn.
Import Launcher.

Inductive Callback : Type :=
| PromiseJobs                  (* the callbacks of lines 39-74 and 76-78 *)
| EmitError (err : JsError).   (* the child emits 'error' *)

(** What [spawn] leaves on the [nextTick] queue: nothing when the process
    started, the emission of the error when it could not be spawned. *)
Definition ticks (failure : option JsError) : list Callback :=
  match failure with
  | Some err => [EmitError err]
  | None => []
  end.

(** The pending callbacks in the order of Node: the [nextTick] queue, then
    the promise jobs. *)
Definition pending (failure : option JsError) : list Callback :=
  (ticks failure ++ [PromiseJobs])%list.

Section WithRuntime.
Context {rt : Runtime}.

(** One callback.  [listeners] is the session of the child once the [then]
    callback has registered its listeners, [None] before. *)
Definition run1 (CONFIGURATION : RLSConfiguration) (w : World)
    (ch : option OutputChannel) (listeners : option Session) (cb : Callback)
    : option Session * list Effect * Completion :=
  match cb with
  | PromiseJobs =>
      let r := makeRlsProcess CONFIGURATION w ch in
      (match session r with Some s => Some s | None => listeners end,
       effects r, Normal)
  | EmitError err =>
      match listeners with
      | Some s =>
          let '(s', effs, k) := dispatch CONFIGURATION s (ProcessError err) in
          (Some s', effs, k)
      | None => (None, [], Throw err)
      end
  end.

(** The callbacks in order; one that throws ends the run. *)
Fixpoint run (CONFIGURATION : RLSConfiguration) (w : World)
    (ch : option OutputChannel) (listeners : option Session)
    (cbs : list Callback) : option Session * list Effect * Completion :=
  match cbs with
  | [] => (listeners, [], Normal)
  | cb :: cbs =>
      match run1 CONFIGURATION w ch listeners cb with
      | (listeners', effs, Normal) =>
          let '(listeners'', effs', k) := run CONFIGURATION w ch listeners' cbs in
          (listeners'', (effs ++ effs')%list, k)
      | r => r
      end
  end.

End WithRuntime.

End Turn.

(** ** What a trace shows of the stderr stream *)

Module Observations.
Import Launcher.

(** The texts appended to the output channel, in order. *)
Definition appended (effs : list Effect) : list string :=
  omap (fun e => match e with ChannelAppend _ text => Some text | _ => None end) effs.

(** The texts written to a log stream, in order. *)
Definition log_writes (effs : list Effect) : list string :=
  omap (fun e => match e with StreamWrite _ text => Some text | _ => None end) effs.

(** The stderr chunks among the events of a session, in order. *)
Definition chunks (es : list Event) : list Chunk :=
  omap (fun e => match e with StderrData chunk => Some chunk | _ => None end) es.

Definition is_log_open (e : Event) : bool :=
  match e with LogOpen => true | _ => false end.

(** The events whose listener throws (line 45): the process errors with a
    code other than "ENOENT". *)
Definition fatal (e : Event) : bool :=
  match e with
  | ProcessError err => negb (code_is_ENOENT (code err))
  | _ => false
  end.

End Observations.

(** ** The deprecated configuration file ([warnOnRlsToml], lines 110-117) *)

Module RlsToml.

(** [workspace.rootPath + '/rls.toml'] (line 111). *)
Definition tomlPath (rootPath : option string) : string :=
  match rootPath with Some r => r | None => "undefined" end +:+ "/rls.toml".

(** The callback of [fs.access] (lines 112-116): [err] is [null] ([None])
    when the file is accessible. *)
Definition onAccess (err : option JsError) : list Effect :=
  match err with
  | None =>
      [ShowWarningMessage
         "Found deprecated rls.toml. Use VSCode user settings instead (File > Preferences > Settings)"]
  | Some _ => []
  end.

End RlsToml.

(** ** The default build tasks ([addBuildCommands], lines 146-174) *)

Module BuildTasks.

(** A configuration value.  Numbers are integers here: the code only tests
    a value for truthiness, which for a number asks whether it is zero. *)
#[warnings="-register-all"]
Inductive Json : Type :=
| JNull
| JBool (b : bool)
| JNumber (n : Z)
| JString (s : string)
| JArray (items : list Json)
| JObject (fields : list (string * Json)).

(** [!config['tasks']] is false exactly for a truthy value: a missing key,
    [null], [false], [0] and the empty string are falsy. *)
Definition truthy (v : option Json) : bool :=
  match v with
  | None | Some JNull => false
  | Some (JBool b) => b
  | Some (JNumber n) => negb (n =? 0)
  | Some (JString EmptyString) => false
  | Some (JString (String _ _)) => true
  | Some (JArray _) | Some (JObject _) => true
  end.

(** Lines 149-171. *)
Definition tasks : Json :=
  JObject
    [("version", JString "0.1.0");
     ("command", JString "cargo");
     ("isShellCommand", JBool true);
     ("showOutput", JString "always");
     ("suppressTaskName", JBool true);
     ("tasks",
      JArray
        [JObject [("taskName", JString "cargo build");
                  ("args", JArray [JString "build"]);
                  ("isBuildCommand", JBool true)];
         JObject [("taskName", JString "cargo run");
                  ("args", JArray [JString "run"])];
         JObject [("taskName", JString "cargo test");
                  ("args", JArray [JString "test"]);
                  ("isTestCommand", JBool true)]])].

(** Lines 147-173, on the settings that [workspace.getConfiguration()]
    shows: [config.update('tasks', tasks, false)] stores the value under the
    key in the workspace settings, where the next reading finds it. *)
Definition addBuildCommands (config : gmap string Json) : gmap string Json :=
  if truthy (config !! "tasks") then config
  else <["tasks" := tasks]> config.

End BuildTasks.

(** ** After activation *)

Module Activated.
Import Launcher Activate.

(** The closure that [activate] leaves to the callbacks: the variable holds
    the channel of the client (line 100), and [serverOptions] has not been
    called yet, the client calling it from [start()] (line 106) and on every
    restart. *)
Definition activated (outputChannel : OutputChannel) : Closure :=
  {| lcOutputChannel := Some outputChannel; current := None |}.

(** Steps other than the assignment of line 100, which [activate] performs
    once. *)
Definition no_assign (st : Step) : bool :=
  match st with
  | AssignOutputChannel _ => false
  | _ => true
  end.

(** What holds of a closure once line 100 has run: the variable holds the
    channel, and so does the session of the last launch, whose show listener
    is registered as the configuration says. *)
Definition forwarding (CONFIGURATION : RLSConfiguration) (out : OutputChannel)
    (c : Closure) : Prop :=
  Activate.lcOutputChannel c = Some out /\
  forall s, current c = Some s ->
    Launcher.lcOutputChannel s = Some out /\
    showListener s = showStderrInOutputChannel CONFIGURATION.

Section WithRuntime.
Context {rt : Runtime}.

(** The closure after a run of steps, and how the run completed; a
    throwing listener ends it. *)
Fixpoint exec (CONFIGURATION : RLSConfiguration) (c : Closure) (l : list Step)
    : Closure * Completion :=
  match l with
  | [] => (c, Normal)
  | st :: l =>
      match step CONFIGURATION c st with
      | (c', _, Normal) => exec CONFIGURATION c' l
      | (c', _, Throw err) => (c', Throw err)
      end
  end.

End WithRuntime.

End Activated.

(** ** Counting notifications *)

Module Counting.
Import Diagnostics.

Definition is_begin (n : Notification) : bool :=
  match n with DiagnosticsBegin => true | DiagnosticsEnd => false end.

Definition begins (l : list Notification) : Z :=
  Z.of_nat (length (List.filter is_begin l)).

Definition ends (l : list Notification) : Z :=
  Z.of_nat (length (List.filter (fun n => negb (is_begin n)) l)).

End Counting.

(** ** Concrete inputs used to exercise the statements below *)

Module Samples.
Import Launcher.

Definition sample_configuration : RLSConfiguration :=
  {| logToFile := true;
     showStderrInOutputChannel := true;
     revealOutputChannelOn := RevealInfo |}.

Definition sample_world : World :=
  {| env := {| RLS_PATH := Some "/nonexistent"; RLS_ROOT := None |};
     spawned := {| handle := 1 |};
     rustup := Rejected (JsString "rustup not found");
     rootPath := Some "/home/me/project";
     now := 1500000000000 |}.

Definition enoent : JsError :=
  {| code := CodeString "ENOENT";
     message := "spawn /nonexistent ENOENT";
     error_name := "Error" |}.

Definition epipe : JsError :=
  {| code := CodeString "EPIPE"; message := "write EPIPE"; error_name := "Error" |}.

Definition sample_channel : OutputChannel := {| channel_id := 7 |}.

End Samples.

Module DiagnosticsFacts.
Import Diagnostics.

Lemma run_snoc l n : run (l ++ [n]) = step (run l) n.
Proof. unfold run. by rewrite fold_left_app. Qed.

Lemma raw_count_snoc l n : raw_count (l ++ [n]) = raw_step (raw_count l) n.
Proof. unfold raw_count. by rewrite fold_left_app. Qed.

Lemma floored_count_snoc l n :
  floored_count (l ++ [n]) = floored_step (floored_count l) n.
Proof. unfold floored_count. by rewrite fold_left_app. Qed.

(** The two runs that the specification works out by hand. *)
Example begin_begin_end :
  run [DiagnosticsBegin; DiagnosticsBegin; DiagnosticsEnd]
  = {| counter := 1; busy := true |}.
Proof. reflexivity. Qed.

Example begin_end_end :
  run [DiagnosticsBegin; DiagnosticsEnd; DiagnosticsEnd]
  = {| counter := -1; busy := false |}.
Proof. reflexivity. Qed.

(** The counter of the code is the raw count. *)
Lemma counter_run l : counter (run l) = raw_count l.
Proof.
  induction l as [|n l IH] using rev_ind; [done|].
  rewrite run_snoc, raw_count_snoc, <- IH.
  by destruct n.
Qed.

Lemma floored_nonneg l : 0 <= floored_count l.
Proof.
  induction l as [|n l IH] using rev_ind; [done|].
  rewrite floored_count_snoc. destruct n; simpl; lia.
Qed.

Lemma raw_le_floored l : raw_count l <= floored_count l.
Proof.
  induction l as [|n l IH] using rev_ind; [done|].
  rewrite raw_count_snoc, floored_count_snoc. destruct n; simpl; lia.
Qed.

Lemma ends_with_begin_snoc l n :
  ends_with_begin (l ++ [n]) =
  match n with DiagnosticsBegin => true | DiagnosticsEnd => false end.
Proof. unfold ends_with_begin. rewrite last_snoc. by destruct n. Qed.

(** A positive counter keeps the spinner running. *)
Lemma positive_counter_busy l : 0 < raw_count l -> busy (run l) = true.
Proof.
  induction l as [|n l IH] using rev_ind; [done|].
  rewrite run_snoc, raw_count_snoc. intros Hpos.
  destruct n; [done|].
  unfold step; simpl in *. rewrite counter_run.
  destruct (Z.leb_spec (raw_count l - 1) 0); [lia|].
  simpl. apply IH. lia.
Qed.

(** What the code computes: the status is Busy exactly when the raw counter
    is positive or the last notification was a begin. *)
Lemma busy_characterised l :
  busy (run l) = true <-> (0 < raw_count l \/ ends_with_begin l = true).
Proof.
  split.
  - destruct l as [|n l _] using rev_ind; [done|].
    rewrite run_snoc, raw_count_snoc, ends_with_begin_snoc.
    destruct n; [by right|].
    unfold step; simpl. rewrite counter_run.
    destruct (Z.leb_spec (raw_count l - 1) 0); simpl; [done|]. by left.
  - intros [Hpos|Hlast]; [by apply positive_counter_busy|].
    destruct l as [|n l _] using rev_ind; [done|].
    rewrite ends_with_begin_snoc in Hlast. rewrite run_snoc.
    by destruct n.
Qed.

Lemma well_formed_from_snoc l : forall c n,
  well_formed_from c (l ++ [n]) =
  well_formed_from c l &&
  match n with
  | DiagnosticsBegin => true
  | DiagnosticsEnd => 0 <? fold_left raw_step l c
  end.
Proof.
  induction l as [|m l IH]; intros c n; simpl.
  - destruct n; simpl; by rewrite ?andb_true_r.
  - destruct m; rewrite IH; [done|]. by rewrite andb_assoc.
Qed.

(** On a well-formed sequence nothing is ever floored. *)
Lemma well_formed_floored l :
  well_formed l = true -> floored_count l = raw_count l /\ 0 <= raw_count l.
Proof.
  unfold well_formed.
  induction l as [|n l IH] using rev_ind; [done|].
  rewrite well_formed_from_snoc, andb_true_iff. intros [Hl Hn].
  destruct (IH Hl) as [Heq Hge].
  rewrite floored_count_snoc, raw_count_snoc, Heq.
  destruct n; simpl; [lia|].
  apply Z.ltb_lt in Hn. fold (raw_count l) in Hn. lia.
Qed.

End DiagnosticsFacts.

Module DiagnosticsTheorems.
Import Diagnostics DiagnosticsFacts.

Lemma busy_floored_positive l : busy (run l) = true -> 0 < floored_count l.
Proof.
  intros Hb. apply busy_characterised in Hb as [Hpos|Hlast].
  - pose proof (raw_le_floored l). lia.
  - destruct l as [|n l _] using rev_ind; [done|].
    rewrite ends_with_begin_snoc in Hlast. destruct n; [|done].
    rewrite floored_count_snoc. pose proof (floored_nonneg l). simpl. lia.
Qed.

(** C1, as the claim words it, fails.  After one unmatched end the raw
    counter is -1; two begins and one end later it is back at 0, so the
    spinner is stopped, although one begin is still outstanding and the
    floored count is 1. *)
Lemma busy_iff_floored_counterexample :
  let l := [DiagnosticsEnd; DiagnosticsBegin; DiagnosticsBegin; DiagnosticsEnd] in
  ~ (busy (run l) = true <-> 0 < floored_count l).
Proof. intros l [_ Hb]. discriminate Hb. reflexivity. Qed.

(** C1, amended.  After every sequence [l] of begin and end notifications
    (hence after every prefix of a sequence), the status is Busy exactly when
    the raw counter (begins minus ends, not floored) is positive or the last
    notification was a begin; a Busy status implies a positive floored
    count; and when no prefix of [l] has more ends than begins, Busy holds
    exactly when the floored count is positive. *)
Theorem busy_iff_count l :
  (busy (run l) = true <-> (0 < raw_count l \/ ends_with_begin l = true)) /\
  (busy (run l) = true -> 0 < floored_count l) /\
  (well_formed l = true -> (busy (run l) = true <-> 0 < floored_count l)).
Proof.
  split; [apply busy_characterised|]. split; [apply busy_floored_positive|].
  intros Hwf. destruct (well_formed_floored l Hwf) as [Heq _].
  split; [apply busy_floored_positive|].
  rewrite Heq. apply positive_counter_busy.
Qed.

Lemma busy_iff_count_witness :
  let l := [DiagnosticsBegin; DiagnosticsBegin; DiagnosticsEnd] in
  busy (run l) = true <-> 0 < floored_count l.
Proof.
  intros l. apply (proj2 (proj2 (busy_iff_count l))). reflexivity.
Defined.

(** C2, as the claim words it, fails: a begin that arrives while the counter
    is already positive starts the spinner all the same. *)
Lemma start_spinner_counterexample :
  ~ (In (StartSpinner "RLS analysis: working") (snd (onBegin 1)) <-> 1 = 0).
Proof. intros [Hs _]. discriminate Hs. by left. Qed.

(** C2, amended.  Every begin increments the counter and triggers the
    start-spinner action with the "working" message, whatever the counter
    was; an end decrements the counter and triggers the stop-spinner action
    with the "done" message exactly when the decremented counter is at most
    0, and triggers nothing otherwise. *)
Theorem spinner_actions (c : Z) :
  onBegin c = (c + 1, [StartSpinner "RLS analysis: working"]) /\
  fst (onEnd c) = c - 1 /\
  (In (StopSpinner "RLS analysis: done") (snd (onEnd c)) <-> c - 1 <= 0) /\
  (snd (onEnd c) = [] <-> 0 < c - 1).
Proof.
  unfold onBegin, onEnd; simpl.
  destruct (Z.leb_spec (c - 1) 0); simpl; intuition (try lia; try done).
Qed.

End DiagnosticsTheorems.

Module LauncherFacts.
Import Launcher.

Lemma launch_path env c rls_path :
  RLS_PATH env = Some (String c rls_path) ->
  launch env = Spawn (String c rls_path) [] None.
Proof. unfold launch. by intros ->. Qed.

Lemma launch_rustup_iff env :
  launch env = RunRlsViaRustup <->
  (RLS_PATH env = None \/ RLS_PATH env = Some "") /\
  (RLS_ROOT env = None \/ RLS_ROOT env = Some "").
Proof.
  unfold launch.
  destruct (RLS_PATH env) as [[|c p]|], (RLS_ROOT env) as [[|d r]|];
    split; try done; try (intros _; split; by auto);
    intros [[?|?] [?|?]]; done.
Qed.

Lemma code_is_ENOENT_spec c :
  code_is_ENOENT c = true <-> c = CodeString "ENOENT".
Proof.
  destruct c as [|s|n]; simpl; [done| |done].
  rewrite String.eqb_eq. split; [by intros ->|by intros [= ->]].
Qed.

Section WithRuntime.
Context {rt : Runtime}.

(** The [then] callback runs exactly when the process promise is
    fulfilled, and the returned promise is fulfilled either way. *)
Lemma makeRlsProcess_fulfilled CONFIGURATION w ch child :
  childProcessPromise w = Fulfilled child ->
  makeRlsProcess CONFIGURATION w ch =
  {| effects := fst (onChildProcess CONFIGURATION w ch child);
     returned := Fulfilled (Some child);
     session := Some (snd (onChildProcess CONFIGURATION w ch child)) |}.
Proof. unfold makeRlsProcess. by intros ->. Qed.

Lemma makeRlsProcess_never_rejects CONFIGURATION w ch :
  exists v, returned (makeRlsProcess CONFIGURATION w ch) = Fulfilled v.
Proof.
  unfold makeRlsProcess. destruct (childProcessPromise w); simpl; eauto.
Qed.

(** Events leave the channel, the log path and the show listener of a
    session as the launch set them. *)
Lemma dispatch_fields CONFIGURATION s e s' effs k :
  dispatch CONFIGURATION s e = (s', effs, k) ->
  lcOutputChannel s' = lcOutputChannel s /\
  logStream s' = logStream s /\
  showListener s' = showListener s.
Proof.
  destruct e; simpl.
  - destruct (onProcessError err); by intros [= <- _ _].
  - destruct (logStream s) eqn:E; intros [= <- _ _]; by rewrite ?E.
  - destruct (logStream s) eqn:E; intros [= <- _ _]; by rewrite ?E.
  - by intros [= <- _ _].
Qed.

Lemma deliver_fields CONFIGURATION es : forall s s' effs k,
  deliver CONFIGURATION s es = (s', effs, k) ->
  lcOutputChannel s' = lcOutputChannel s /\
  logStream s' = logStream s /\
  showListener s' = showListener s.
Proof.
  induction es as [|e es IH]; intros s s' effs k; simpl.
  - by intros [= <- _ _].
  - destruct (dispatch CONFIGURATION s e) as [[s1 effs1] k1] eqn:Hd.
    apply dispatch_fields in Hd as (Hc & Hl & Hs).
    destruct k1.
    + destruct (deliver CONFIGURATION s1 es) as [[s2 effs2] k2] eqn:Hr.
      apply IH in Hr as (Hc' & Hl' & Hs'). intros [= <- _ _]. split_and!; congruence.
    + by intros [= <- _ _].
Qed.

Lemma makeRlsProcess_session CONFIGURATION w ch s :
  session (makeRlsProcess CONFIGURATION w ch) = Some s ->
  lcOutputChannel s = ch /\
  showListener s = showStderrInOutputChannel CONFIGURATION /\
  logStream s =
    (if logToFile CONFIGURATION then Some (logPath (rootPath w) (now w)) else None) /\
  effects (makeRlsProcess CONFIGURATION w ch) =
    (if logToFile CONFIGURATION
     then [CreateWriteStream (logPath (rootPath w) (now w)) "w+"] else []).
Proof.
  unfold makeRlsProcess. destruct (childProcessPromise w); simpl; [|done].
  by intros [= <-].
Qed.

Lemma channel_effects_app effs1 effs2 :
  channel_effects (effs1 ++ effs2) = (channel_effects effs1 ++ channel_effects effs2)%list.
Proof. apply List.filter_app. Qed.

Lemma channel_effects_log_writes n logPath chunk :
  channel_effects (concat (replicate n (onLogData logPath chunk))) = [].
Proof. induction n as [|n IH]; [done|]. simpl. apply IH. Qed.

Lemma channel_effects_onShowData CONFIGURATION ch chunk :
  channel_effects (onShowData CONFIGURATION ch chunk) =
  onShowData CONFIGURATION ch chunk.
Proof.
  unfold onShowData. destruct ch as [ch|]; [|done]. simpl.
  by destruct (_ <=? _).
Qed.

(** The channel sees of a stderr chunk what the listener of line 63 does
    with it, and nothing else. *)
Lemma channel_effects_data CONFIGURATION s chunk :
  channel_effects (snd (fst (dispatch CONFIGURATION s (StderrData chunk)))) =
  if showListener s then onShowData CONFIGURATION (lcOutputChannel s) chunk else [].
Proof.
  simpl. rewrite channel_effects_app.
  assert (channel_effects
            match logStream s with
            | Some logPath => concat (replicate (logListeners s) (onLogData logPath chunk))
            | None => []
            end = []) as ->
    by (destruct (logStream s); [apply channel_effects_log_writes|done]).
  rewrite app_nil_r.
  destruct (showListener s); [apply channel_effects_onShowData|done].
Qed.

(** A session whose channel parameter is null never acts on a channel. *)
Lemma channel_effects_null CONFIGURATION s e :
  lcOutputChannel s = None ->
  channel_effects (snd (fst (dispatch CONFIGURATION s e))) = [].
Proof.
  intros Hnull. destruct e.
  - simpl. unfold onProcessError. by destruct (code_is_ENOENT _).
  - simpl. by destruct (logStream s).
  - simpl. by destruct (logStream s).
  - rewrite channel_effects_data, Hnull. by destruct (showListener s).
Qed.

End WithRuntime.

End LauncherFacts.

Module LauncherTheorems.
Import Launcher LauncherFacts.

(** C5, as the claim words it, fails: a variable that is set to the empty
    string fails the truthiness test of line 31, so that with
    [RLS_PATH] set to the empty string and [RLS_ROOT] unset the toolchain
    resolver is called although a variable is present. *)
Lemma launch_empty_path_counterexample :
  let env := {| RLS_PATH := Some ""; RLS_ROOT := None |} in
  ~ ((forall p, RLS_PATH env = Some p -> launch env = Spawn p [] None) /\
     (launch env = RunRlsViaRustup <-> RLS_PATH env = None /\ RLS_ROOT env = None)).
Proof. intros env [Hp _]. specialize (Hp "" eq_refl). discriminate Hp. Qed.

(** C5, amended.  Each invocation chooses one launch strategy from the
    environment: if the binary-path variable is set to a non-empty string,
    that binary is spawned directly, without arguments; otherwise, if the
    project-root variable is set to a non-empty string, [cargo run --release]
    is spawned in that directory; and the toolchain resolver is called
    exactly when each of the two variables is absent or empty. *)
Theorem launch_strategy (env : Env) :
  (forall p, RLS_PATH env = Some p -> p <> "" -> launch env = Spawn p [] None) /\
  (forall r, RLS_PATH env = None \/ RLS_PATH env = Some "" ->
             RLS_ROOT env = Some r -> r <> "" ->
             launch env = Spawn "cargo" ["run"; "--release"] (Some r)) /\
  (launch env = RunRlsViaRustup <->
   (RLS_PATH env = None \/ RLS_PATH env = Some "") /\
   (RLS_ROOT env = None \/ RLS_ROOT env = Some "")).
Proof.
  split_and!.
  - intros [|c p] Hp Hne; [done|]. by apply launch_path.
  - intros [|c r] Hp Hr Hne; [done|]. unfold launch. rewrite Hr.
    by destruct Hp as [-> | ->].
  - apply launch_rustup_iff.
Qed.

Lemma launch_strategy_witness :
  launch {| RLS_PATH := Some "/opt/rls"; RLS_ROOT := Some "/src/rls" |}
    = Spawn "/opt/rls" [] None /\
  launch {| RLS_PATH := None; RLS_ROOT := Some "/src/rls" |}
    = Spawn "cargo" ["run"; "--release"] (Some "/src/rls").
Proof.
  split.
  - apply (proj1 (launch_strategy _) "/opt/rls"); [reflexivity | discriminate].
  - apply (proj1 (proj2 (launch_strategy _)) "/src/rls");
      [left; reflexivity | reflexivity | discriminate].
Defined.

Section WithRuntime.
Context {rt : Runtime}.

(** C4.  For every error event of the child process, the error listener
    shows the warning exactly when the code of the error is "ENOENT", in
    which case it completes normally; every other error is thrown again out
    of the listener, with no effect performed.  The session is left as it
    was. *)
Theorem process_error_fatal_unless_enoent
    (CONFIGURATION : RLSConfiguration) (s : Session) (err : JsError) :
  let r := dispatch CONFIGURATION s (ProcessError err) in
  fst (fst r) = s /\
  (In (ShowWarningMessage "Could not start RLS") (snd (fst r)) <->
   code err = CodeString "ENOENT") /\
  (snd r = Normal <-> code err = CodeString "ENOENT") /\
  (snd r = Throw err <-> code err <> CodeString "ENOENT") /\
  (code err <> CodeString "ENOENT" -> snd (fst r) = []).
Proof.
  simpl. unfold onProcessError.
  pose proof (code_is_ENOENT_spec (code err)) as Hspec.
  destruct (code_is_ENOENT (code err)); simpl.
  - assert (code err = CodeString "ENOENT") as He by by apply Hspec.
    split_and!; [done | | done | | ]; try (split; intros; by auto);
      intros; congruence.
  - assert (code err <> CodeString "ENOENT") as He
      by (intros He; by apply Hspec in He).
    split_and!; [done | | | done | done]; split; try done; by intros [].
Qed.

(** C6.  With show-stderr-in-output enabled and a channel handle passed to
    the launch, every stderr chunk that reaches the session, whatever events
    came before, is appended to the channel once, as text; the channel is
    shown, with [preserveFocus] set, exactly when the level of the
    configured threshold is at most the level of Info.  So with threshold
    Info every chunk reveals the channel, and with threshold Error, which the
    enum ranks above Info, no chunk does. *)
Theorem stderr_shown_in_channel
    (CONFIGURATION : RLSConfiguration) (w : World) (ch : OutputChannel)
    (es : list Event) (chunk : Chunk) (s0 s : Session) (effs0 : list Effect) :
  showStderrInOutputChannel CONFIGURATION = true ->
  session (makeRlsProcess CONFIGURATION w (Some ch)) = Some s0 ->
  deliver CONFIGURATION s0 es = (s, effs0, Normal) ->
  let effs := snd (fst (dispatch CONFIGURATION s (StderrData chunk))) in
  channel_effects effs =
    ChannelAppend ch (chunk_toString chunk)
    :: (if reveal_level (revealOutputChannelOn CONFIGURATION) <=? reveal_level RevealInfo
        then [ChannelShow ch true] else []) /\
  (forall ch' focus, In (ChannelShow ch' focus) effs <->
     ch' = ch /\ focus = true /\
     reveal_level (revealOutputChannelOn CONFIGURATION) <= reveal_level RevealInfo) /\
  (revealOutputChannelOn CONFIGURATION = RevealInfo -> In (ChannelShow ch true) effs) /\
  (reveal_level RevealInfo < reveal_level RevealError ->
   revealOutputChannelOn CONFIGURATION = RevealError ->
   forall ch' focus, ~ In (ChannelShow ch' focus) effs).
Proof.
  intros Hshow Hs0 Hes effs.
  apply makeRlsProcess_session in Hs0 as (Hc0 & Hl0 & _).
  apply deliver_fields in Hes as (Hc & _ & Hl).
  assert (channel_effects effs =
    ChannelAppend ch (chunk_toString chunk)
    :: (if reveal_level (revealOutputChannelOn CONFIGURATION) <=? reveal_level RevealInfo
        then [ChannelShow ch true] else [])) as Hch.
  { unfold effs. rewrite channel_effects_data, Hl, Hl0, Hshow, Hc, Hc0.
    simpl. by destruct chunk. }
  assert (forall ch' focus, In (ChannelShow ch' focus) effs <->
     ch' = ch /\ focus = true /\
     reveal_level (revealOutputChannelOn CONFIGURATION) <= reveal_level RevealInfo)
    as Hin.
  { intros ch' focus.
    assert (In (ChannelShow ch' focus) effs <->
            In (ChannelShow ch' focus) (channel_effects effs)) as ->
      by (unfold channel_effects; rewrite List.filter_In; simpl; tauto).
    rewrite Hch.
    destruct (Z.leb_spec (reveal_level (revealOutputChannelOn CONFIGURATION))
                         (reveal_level RevealInfo)); simpl.
    - split.
      + intros [?|[[= -> ->]|[]]]; done.
      + intros (-> & -> & _). right; by left.
    - split; [by intros [?|[]] | lia]. }
  split_and!; [done | done | |].
  - intros HInfo. apply Hin. rewrite HInfo. split_and!; [done | done | lia].
  - intros Hlt HError ch' focus Hi. apply Hin in Hi as (_ & _ & Hle).
    rewrite HError in Hle. lia.
Qed.

(** C9.  When the log stream reports an error, at any point of the session,
    its error listener logs the failure to the console and ends the stream;
    it completes normally and leaves the session as it was, so that the
    events that follow are handled as without the error, the stderr chunks
    among them still reaching the show listener. *)
Theorem log_error_contained
    (CONFIGURATION : RLSConfiguration) (s : Session) (logPath : string)
    (err : JsValue) (es : list Event) :
  logStream s = Some logPath ->
  dispatch CONFIGURATION s (LogError err) =
    (s, [ConsoleError ["Couldn't write to " +:+ logPath +:+ " (" +:+ ToString err +:+ ")"];
         StreamEnd logPath], Normal) /\
  deliver CONFIGURATION s (LogError err :: es) =
    (let '(s', effs, k) := deliver CONFIGURATION s es in
     (s', ConsoleError ["Couldn't write to " +:+ logPath +:+ " (" +:+ ToString err +:+ ")"]
          :: StreamEnd logPath :: effs, k)) /\
  (forall chunk,
     snd (dispatch CONFIGURATION s (StderrData chunk)) = Normal /\
     channel_effects (snd (fst (dispatch CONFIGURATION s (StderrData chunk)))) =
     if showListener s then onShowData CONFIGURATION (lcOutputChannel s) chunk else []).
Proof.
  intros Hlog. split_and!.
  - simpl. by rewrite Hlog.
  - simpl. rewrite Hlog. unfold onLogError.
    by destruct (deliver CONFIGURATION s es) as [[s' effs] k].
  - intros chunk. split; [done | apply channel_effects_data].
Qed.

End WithRuntime.

End LauncherTheorems.

Module ActivateTheorems.
Import Launcher LauncherFacts Activate Samples.

Section WithRuntime.
Context {rt : Runtime}.

Lemma step_no_launch_quiet CONFIGURATION c st c' effs k :
  no_launch st = true -> quiet c ->
  step CONFIGURATION c st = (c', effs, k) ->
  quiet c' /\ channel_effects effs = [].
Proof.
  intros Hst Hq. destruct st as [ch|w|e]; [|done|]; simpl.
  - intros [= <- <- _]. by split.
  - destruct (current c) as [s|] eqn:Hcur.
    + pose proof (channel_effects_null CONFIGURATION s e (Hq s Hcur)) as Hnull.
      destruct (dispatch CONFIGURATION s e) as [[s' effs'] k'] eqn:Hd.
      apply dispatch_fields in Hd as (Hc & _ & _).
      intros [= <- <- _]. split; [|done].
      intros s1 [= <-]. rewrite Hc. by apply Hq.
    + intros [= <- <- _]. by split.
Qed.

Lemma steps_no_launch_quiet CONFIGURATION l : forall c,
  forallb no_launch l = true -> quiet c ->
  Forall (fun effs => channel_effects effs = []) (steps CONFIGURATION c l).
Proof.
  induction l as [|st l IH]; intros c Hl Hq; simpl; [constructor|].
  simpl in Hl. apply andb_true_iff in Hl as [Hst Hl].
  destruct (step CONFIGURATION c st) as [[c' effs] k] eqn:Hstep.
  destruct (step_no_launch_quiet _ _ _ _ _ _ Hst Hq Hstep) as [Hq' Heffs].
  destruct k; constructor; auto.
Qed.

(** C10, amended.  When [serverOptions] is called while the variable
    [lcOutputChannel] of [activate] is still null, the session it launches
    never acts on a channel: whatever assignments of the variable and
    whatever events follow (up to the next call of [serverOptions]), nothing
    is appended, nothing is shown, and a stderr chunk never makes a listener
    throw.  Chunks are forwarded by a session that is launched after the
    assignment: then the chunk is appended to the assigned channel. *)
Theorem null_channel_discards
    (CONFIGURATION : RLSConfiguration) (w : World) (l : list Step) :
  (forallb no_launch l = true ->
   Forall (fun effs => channel_effects effs = [])
     (steps CONFIGURATION initial (ServerOptions w :: l))) /\
  (forall s chunk, snd (dispatch CONFIGURATION s (StderrData chunk)) = Normal) /\
  (forall ch child chunk,
     showStderrInOutputChannel CONFIGURATION = true ->
     childProcessPromise w = Fulfilled child ->
     exists effs0 effs,
       steps CONFIGURATION initial
         [AssignOutputChannel ch; ServerOptions w; Emit (StderrData chunk)]
       = [[]; effs0; effs] /\
       In (ChannelAppend ch (chunk_toString chunk)) effs).
Proof.
  split_and!.
  - intros Hl. simpl.
    pose proof (makeRlsProcess_session CONFIGURATION w None) as Hs.
    assert (session (makeRlsProcess CONFIGURATION w None) = None ->
            effects (makeRlsProcess CONFIGURATION w None)
            = [SetStatusBarMessage "RLS could not be started"]) as Hn
      by (unfold makeRlsProcess; by destruct (childProcessPromise w)).
    destruct (makeRlsProcess CONFIGURATION w None) as [effs0 ret [s0|]];
      simpl in *; constructor.
    + destruct (Hs s0 eq_refl) as (_ & _ & _ & ->).
      by destruct (logToFile CONFIGURATION).
    + apply steps_no_launch_quiet; [done|].
      intros s [= <-]. by destruct (Hs s0 eq_refl).
    + by rewrite Hn.
    + apply steps_no_launch_quiet; [done|]. by intros s.
  - done.
  - intros ch child chunk Hshow Hchild. simpl.
    rewrite (makeRlsProcess_fulfilled _ _ _ _ Hchild). simpl.
    rewrite Hshow. simpl. do 2 eexists. split; [done|].
    left. by destruct chunk.
Qed.

End WithRuntime.

(** C10, as the claim words it, fails.  A session is launched while the
    variable is null; a chunk arrives and is dropped; the variable is
    assigned; the next chunk is dropped too, because the listener tests the
    parameter of its own call of [makeRlsProcess], which is still null. *)
Lemma forwarding_resumes_counterexample :
  let trace :=
    steps (rt := languageclient_runtime) sample_configuration initial
      [ServerOptions sample_world;
       Emit (StderrData (ChunkString "early"));
       AssignOutputChannel sample_channel;
       Emit (StderrData (ChunkString "late"))] in
  ~ (exists effs, trace !! 3%nat = Some effs /\
                  In (ChannelAppend sample_channel "late") effs).
Proof.
  intros trace (effs & Hlook & Hin).
  vm_compute in Hlook. injection Hlook as <-. by destruct Hin.
Qed.

Lemma null_channel_discards_witness :
  Forall (fun effs => channel_effects effs = [])
    (steps (rt := languageclient_runtime) sample_configuration initial
       [ServerOptions sample_world;
        Emit (StderrData (ChunkString "early"));
        AssignOutputChannel sample_channel;
        Emit (StderrData (ChunkString "late"))]).
Proof.
  apply (proj1 (null_channel_discards (rt := languageclient_runtime)
                  sample_configuration sample_world _)).
  reflexivity.
Defined.

End ActivateTheorems.

Module DeglobTheorems.
Import Deglob.



Lemma append_empty_r s : s +:+ "" = s.
Proof.
  induction s as [|c s IH]; [done|].
  change (String c (s +:+ "") = String c s). by rewrite IH.
Qed.



(** When [sendRequest] itself throws there is no request and no
    continuation: the exception leaves the handler and no warning is
    shown. *)
Lemma deglob_send_throws_escapes (textEditor : TextEditor) (err : JsError) :
  snd (command textEditor (SendThrows err)) = Throw err /\
  snd (invoke textEditor (SendThrows err)) = Throw err /\
  warnings (fst (invoke textEditor (SendThrows err))) = [].
Proof. done. Qed.



End DeglobTheorems.

Module LogFileFacts.
Import Launcher LauncherFacts LogFiles.

(** *** Rendered integers *)

Lemma to_int_nonnil n : Z.to_int n <> Decimal.Pos Decimal.Nil /\ Z.to_int n <> Decimal.Neg Decimal.Nil.
Proof.
  split; intros Hn; pose proof (DecimalZ.of_to n) as Hof; rewrite Hn in Hof;
    simpl in Hof; subst n; discriminate Hn.
Qed.

Lemma Number_toString_inj n m : Number_toString n = Number_toString m -> n = m.
Proof.
  unfold Number_toString. intros Heq.
  apply DecimalZ.to_int_inj.
  destruct (to_int_nonnil n) as [Hn1 Hn2], (to_int_nonnil m) as [Hm1 Hm2].
  pose proof (NilZero.isi _ Hn1 Hn2) as Hn.
  pose proof (NilZero.isi _ Hm1 Hm2) as Hm.
  rewrite Heq in Hn. congruence.
Qed.

Lemma string_of_uint_numeric d :
  Forall (fun c => numeric c = true) (list_ascii_of_string (NilEmpty.string_of_uint d)).
Proof. induction d; simpl; constructor; done. Qed.

Lemma Number_toString_numeric n :
  Forall (fun c => numeric c = true) (list_ascii_of_string (Number_toString n)).
Proof.
  unfold Number_toString, NilZero.string_of_int, NilZero.string_of_uint.
  destruct (Z.to_int n) as [d|d].
  - destruct d; try apply string_of_uint_numeric. by repeat constructor.
  - simpl. constructor; [done|].
    destruct d; try apply string_of_uint_numeric. by repeat constructor.
Qed.

(** *** Strings as lists of characters *)

Lemma list_ascii_of_string_append s t :
  list_ascii_of_string (s +:+ t) = (list_ascii_of_string s ++ list_ascii_of_string t)%list.
Proof.
  induction s as [|c s IH]; [done|].
  change (c :: list_ascii_of_string (s +:+ t)
          = c :: (list_ascii_of_string s ++ list_ascii_of_string t)%list).
  by rewrite IH.
Qed.

Lemma list_ascii_of_string_inj s t :
  list_ascii_of_string s = list_ascii_of_string t -> s = t.
Proof.
  intros Heq. rewrite <- (string_of_list_ascii_of_string s),
    <- (string_of_list_ascii_of_string t). by rewrite Heq.
Qed.

(** Two runs of numeric characters that are each followed by the same
    non-numeric character, inside equal lists, are equal. *)
Lemma numeric_run_inj (c : ascii) (u : list ascii) : forall v r1 r2,
  numeric c = false ->
  Forall (fun c => numeric c = true) u -> Forall (fun c => numeric c = true) v ->
  (u ++ c :: r1 = v ++ c :: r2)%list -> u = v /\ r1 = r2.
Proof.
  induction u as [|a u IH]; intros [|b v] r1 r2 Hc Hu Hv; simpl.
  - by intros [= <-].
  - intros [= <- _]. apply Forall_cons in Hv as [Hb _]. congruence.
  - intros [= -> _]. apply Forall_cons in Hu as [Ha _]. congruence.
  - intros [= <- Heq].
    apply Forall_cons in Hu as [_ Hu]. apply Forall_cons in Hv as [_ Hv].
    destruct (IH v r1 r2 Hc Hu Hv Heq) as [-> ->]. done.
Qed.

(** The path of the log file determines the timestamp it was made from,
    whatever the workspace roots. *)
Lemma logPath_inj root1 root2 now1 now2 :
  logPath root1 now1 = logPath root2 now2 -> now1 = now2.
Proof.
  unfold logPath. intros Heq.
  apply (f_equal list_ascii_of_string) in Heq.
  rewrite !list_ascii_of_string_append in Heq.
  rewrite !(assoc_L (++)%list) in Heq.
  apply app_inv_tail in Heq.
  apply (f_equal (@List.rev ascii)) in Heq.
  rewrite !rev_app_distr in Heq. simpl in Heq.
  apply numeric_run_inj in Heq as [Hnum _]; [| done | |].
  - apply Number_toString_inj, list_ascii_of_string_inj.
    rewrite <- (rev_involutive (list_ascii_of_string (Number_toString now1))),
      <- (rev_involutive (list_ascii_of_string (Number_toString now2))).
    by rewrite Hnum.
  - apply List.Forall_rev, Number_toString_numeric.
  - apply List.Forall_rev, Number_toString_numeric.
Qed.

(** *** The files a session touches *)

Lemma apply_other fs e path :
  touches e <> Some path -> files (apply fs e) !! path = files fs !! path.
Proof.
  intros Hne.
  destruct e as [| | | | | | |p flags|p text|p|]; simpl in *; try done.
  - assert (p <> path) by congruence.
    destruct (String.eqb flags "w+"); by rewrite lookup_insert_ne.
  - assert (p <> path) by congruence.
    case_decide; [|done]. simpl. by rewrite lookup_alter_ne.
Qed.

Lemma run_other effs : forall fs path,
  Forall (fun e => touches e <> Some path) effs ->
  files (run fs effs) !! path = files fs !! path.
Proof.
  induction effs as [|e effs IH]; intros fs path Hall; [done|].
  apply Forall_cons in Hall as [He Hall]. simpl.
  rewrite (IH _ _ Hall). by apply apply_other.
Qed.

Section WithRuntime.
Context {rt : Runtime}.

Local Ltac own_path := repeat constructor; intros ?; simpl; congruence.

(** Every file effect of an event is on the log path of the session. *)
Lemma dispatch_touches CONFIGURATION s ev :
  Forall (fun e => forall path, touches e = Some path -> logStream s = Some path)
    (snd (fst (dispatch CONFIGURATION s ev))).
Proof.
  destruct ev; simpl.
  - unfold onProcessError. destruct (code_is_ENOENT _); simpl; own_path.
  - destruct (logStream s); simpl; own_path.
  - destruct (logStream s) as [p|]; simpl; own_path.
  - apply Forall_app. split.
    + destruct (showListener s); [|own_path].
      unfold onShowData. destruct (lcOutputChannel s); [|own_path].
      destruct (_ <=? _); own_path.
    + destruct (logStream s) as [p|]; [|own_path].
      induction (logListeners s) as [|n IH]; simpl; [own_path|].
      constructor; [|apply IH]. intros path; simpl; congruence.
Qed.

Lemma deliver_touches CONFIGURATION es : forall s,
  Forall (fun e => forall path, touches e = Some path -> logStream s = Some path)
    (snd (fst (deliver CONFIGURATION s es))).
Proof.
  induction es as [|ev es IH]; intros s; simpl; [constructor|].
  pose proof (dispatch_touches CONFIGURATION s ev) as Hd.
  destruct (dispatch CONFIGURATION s ev) as [[s1 effs1] k1] eqn:Hdis.
  apply dispatch_fields in Hdis as (_ & Hlog & _). simpl in Hd.
  destruct k1; [|done].
  specialize (IH s1).
  destruct (deliver CONFIGURATION s1 es) as [[s2 effs2] k2]. simpl in *.
  apply Forall_app. split; [done|].
  rewrite Hlog in IH. done.
Qed.

End WithRuntime.

End LogFileFacts.

Module LogFileTheorems.
Import Launcher LauncherFacts LogFiles LogFileFacts Samples.

Section WithRuntime.
Context {rt : Runtime}.

(** C7.  With log-to-file enabled, a session start that obtains its process
    opens a write stream at the path made of the workspace root and the
    current timestamp, and every write and close of the session goes to
    that path.  Two session starts with distinct timestamps have distinct
    paths, whatever their workspace roots, and nothing the later session
    does, from its start through any run of events, changes the file of the
    earlier one. *)
Theorem log_file_per_session
    (CONFIGURATION : RLSConfiguration) (w1 w2 : World)
    (ch1 ch2 : option OutputChannel) (s1 s2 : Session) :
  logToFile CONFIGURATION = true ->
  now w1 <> now w2 ->
  session (makeRlsProcess CONFIGURATION w1 ch1) = Some s1 ->
  session (makeRlsProcess CONFIGURATION w2 ch2) = Some s2 ->
  let path1 := logPath (rootPath w1) (now w1) in
  let path2 := logPath (rootPath w2) (now w2) in
  effects (makeRlsProcess CONFIGURATION w1 ch1) = [CreateWriteStream path1 "w+"] /\
  effects (makeRlsProcess CONFIGURATION w2 ch2) = [CreateWriteStream path2 "w+"] /\
  path1 <> path2 /\
  (forall es e path,
     In e (snd (fst (deliver CONFIGURATION s1 es))) -> touches e = Some path ->
     path = path1) /\
  (forall es e path,
     In e (snd (fst (deliver CONFIGURATION s2 es))) -> touches e = Some path ->
     path = path2) /\
  (forall fs es,
     files (run fs (effects (makeRlsProcess CONFIGURATION w2 ch2)
                    ++ snd (fst (deliver CONFIGURATION s2 es)))) !! path1
     = files fs !! path1).
Proof.
  intros Hlog Hnow Hs1 Hs2 path1 path2.
  apply makeRlsProcess_session in Hs1 as (_ & _ & Hl1 & He1).
  apply makeRlsProcess_session in Hs2 as (_ & _ & Hl2 & He2).
  rewrite Hlog in Hl1, Hl2, He1, He2.
  assert (path1 <> path2) as Hne
    by (intros Heq; by apply Hnow, (logPath_inj _ _ _ _ Heq)).
  assert (forall s p, logStream s = Some p -> forall es e path,
            In e (snd (fst (deliver CONFIGURATION s es))) ->
            touches e = Some path -> path = p) as Hown.
  { intros s p Hl es e path Hin Ht.
    pose proof (deliver_touches CONFIGURATION es s) as Hall.
    rewrite Forall_forall in Hall.
    apply list_elem_of_In in Hin. specialize (Hall e Hin path Ht). congruence. }
  split_and!; [done | done | done | by apply Hown | by apply Hown |].
  intros fs es. apply run_other, Forall_app. split.
  - rewrite He2. constructor; [|constructor]. simpl. intros [= Heq]. by apply Hne.
  - apply Forall_forall. intros e Hin Ht.
    apply list_elem_of_In in Hin. apply Hne.
    exact (Hown s2 _ Hl2 es e _ Hin Ht).
Qed.

End WithRuntime.

Lemma log_file_per_session_witness :
  let w1 := sample_world in
  let w2 := {| env := env sample_world; spawned := {| handle := 2 |};
               rustup := rustup sample_world; rootPath := rootPath sample_world;
               now := 1500000000001 |} in
  logPath (rootPath w1) (now w1) <> logPath (rootPath w2) (now w2).
Proof.
  intros w1 w2.
  apply (log_file_per_session (rt := languageclient_runtime)
           sample_configuration w1 w2 None None
           (snd (onChildProcess sample_configuration w1 None (spawned w1)))
           (snd (onChildProcess sample_configuration w2 None (spawned w2))));
    [reflexivity | discriminate | reflexivity | reflexivity].
Defined.

End LogFileTheorems.

Module LauncherWitnesses.
Import Launcher LauncherTheorems Samples.

Lemma process_error_fatal_unless_enoent_witness :
  let s := snd (onChildProcess sample_configuration sample_world None
                  {| handle := 1 |}) in
  snd (dispatch (rt := languageclient_runtime) sample_configuration s
         (ProcessError epipe)) = Throw epipe.
Proof.
  intros s.
  apply (process_error_fatal_unless_enoent (rt := languageclient_runtime)
           sample_configuration s epipe).
  discriminate.
Defined.

Lemma stderr_shown_in_channel_witness :
  let s := snd (onChildProcess sample_configuration sample_world (Some sample_channel)
                  {| handle := 1 |}) in
  channel_effects
    (snd (fst (dispatch (rt := languageclient_runtime) sample_configuration s
                 (StderrData (ChunkString "warning: unused")))))
  = [ChannelAppend sample_channel "warning: unused"; ChannelShow sample_channel true].
Proof.
  intros s.
  apply (stderr_shown_in_channel (rt := languageclient_runtime)
           sample_configuration sample_world sample_channel []
           (ChunkString "warning: unused") s s []);
    reflexivity.
Defined.

Lemma log_error_contained_witness :
  let s := snd (onChildProcess sample_configuration sample_world (Some sample_channel)
                  {| handle := 1 |}) in
  dispatch (rt := languageclient_runtime) sample_configuration s
    (LogError (JsErrorObject "Error" "ENOSPC: no space left on device")) =
  (s, [ConsoleError ["Couldn't write to /home/me/project/rls1500000000000.log (Error: ENOSPC: no space left on device)"];
       StreamEnd "/home/me/project/rls1500000000000.log"], Normal).
Proof.
  intros s.
  apply (log_error_contained (rt := languageclient_runtime)
           sample_configuration s "/home/me/project/rls1500000000000.log"
           (JsErrorObject "Error" "ENOSPC: no space left on device") []).
  reflexivity.
Defined.

End LauncherWitnesses.

(** * Further properties of the code *)

Module DiagnosticsExtras.
Import Diagnostics DiagnosticsFacts Counting.

Lemma raw_fold_shift l : forall c, fold_left raw_step l c = c + raw_count l.
Proof.
  unfold raw_count.
  induction l as [|n l IH]; intros c; simpl; [lia|].
  rewrite (IH (raw_step c n)), (IH (raw_step 0 n)). destruct n; simpl; lia.
Qed.

Lemma raw_count_cons n l : raw_count (n :: l) = raw_step 0 n + raw_count l.
Proof. unfold raw_count at 1. simpl. apply raw_fold_shift. Qed.

Lemma raw_count_app l1 l2 : raw_count (l1 ++ l2) = raw_count l1 + raw_count l2.
Proof.
  unfold raw_count at 1. rewrite fold_left_app. apply raw_fold_shift.
Qed.

(** The counter is the number of begins minus the number of ends, in
    whatever order they came. *)
Theorem counter_is_difference l : counter (run l) = begins l - ends l.
Proof.
  rewrite counter_run. unfold begins, ends.
  induction l as [|n l IH]; [done|].
  rewrite raw_count_cons, IH. destruct n; simpl; lia.
Qed.

Lemma raw_count_Permutation l1 l2 : l1 ≡ₚ l2 -> raw_count l1 = raw_count l2.
Proof.
  induction 1 as [|n l1 l2 _ IH|n m l|l1 l2 l3 _ IH1 _ IH2].
  - done.
  - by rewrite !raw_count_cons, IH.
  - rewrite !raw_count_cons. destruct n, m; simpl; lia.
  - congruence.
Qed.

(** The state after a sequence depends on how many begins and ends it has
    and on its last notification, not on their order. *)
Theorem run_order_insensitive l1 l2 :
  l1 ≡ₚ l2 -> last l1 = last l2 -> run l1 = run l2.
Proof.
  intros Hperm Hlast.
  assert (counter (run l1) = counter (run l2)) as Hc
    by (rewrite !counter_run; by apply raw_count_Permutation).
  assert (busy (run l1) = busy (run l2)) as Hb.
  { pose proof (busy_characterised l1) as H1.
    pose proof (busy_characterised l2) as H2.
    unfold ends_with_begin in *. rewrite Hlast in H1.
    rewrite (raw_count_Permutation _ _ Hperm) in H1.
    destruct (busy (run l1)), (busy (run l2)); try done.
    - symmetry. apply H2, H1. done.
    - apply H1, H2. done. }
  destruct (run l1), (run l2); simpl in *; congruence.
Qed.

Lemma run_order_insensitive_witness :
  run [DiagnosticsBegin; DiagnosticsEnd; DiagnosticsBegin; DiagnosticsEnd]
  = run [DiagnosticsBegin; DiagnosticsBegin; DiagnosticsEnd; DiagnosticsEnd].
Proof.
  apply run_order_insensitive; [|reflexivity].
  apply perm_skip, perm_swap.
Defined.

Lemma raw_count_ends n : raw_count (replicate n DiagnosticsEnd) = - Z.of_nat n.
Proof.
  induction n as [|n IH]; [done|].
  change (replicate (S n) DiagnosticsEnd) with (DiagnosticsEnd :: replicate n DiagnosticsEnd).
  rewrite raw_count_cons, IH. simpl. lia.
Qed.

(** Outstanding begins keep the status Busy until as many ends have come:
    after [n >= 1] further ends the status is Busy exactly when [n] is below
    the counter, so a begin that is never matched by an end leaves the
    spinner running. *)
Theorem busy_until_matched l (n : nat) :
  (0 < n)%nat ->
  (busy (run (l ++ replicate n DiagnosticsEnd)) = true <->
   Z.of_nat n < counter (run l)).
Proof.
  intros Hn. rewrite busy_characterised, counter_run, raw_count_app, raw_count_ends.
  assert (ends_with_begin (l ++ replicate n DiagnosticsEnd) = false) as ->.
  { destruct n as [|n]; [lia|].
    rewrite replicate_S_end, (assoc_L (++)). apply ends_with_begin_snoc. }
  split; [intros [?|?]; [lia|done] | intros ?; left; lia].
Qed.

Lemma busy_until_matched_witness :
  busy (run ([DiagnosticsBegin; DiagnosticsBegin; DiagnosticsBegin]
             ++ replicate 2 DiagnosticsEnd)) = true.
Proof.
  apply (busy_until_matched [DiagnosticsBegin; DiagnosticsBegin; DiagnosticsBegin] 2);
    [lia | reflexivity].
Defined.

End DiagnosticsExtras.

Module LauncherExtras.
Import Launcher LauncherFacts LogFiles LogFileFacts Observations Samples.

(** The promise that [makeRlsProcess] returns is never rejected.  The
    launch fails, with the status message "RLS could not be started", no
    listener installed and the promise fulfilled with [undefined], exactly
    when the toolchain resolver was chosen and its promise was rejected:
    with a binary path or a project root in the environment the message is
    never shown. *)
Theorem could_not_start_only_via_rustup
    (CONFIGURATION : RLSConfiguration) (w : World) (ch : option OutputChannel) :
  let r := makeRlsProcess CONFIGURATION w ch in
  (exists v, returned r = Fulfilled v) /\
  (session r = None <->
   exists reason, launch (env w) = RunRlsViaRustup /\ rustup w = Rejected reason) /\
  (In (SetStatusBarMessage "RLS could not be started") (effects r) <->
   session r = None) /\
  (session r = None ->
   returned r = Fulfilled None /\
   effects r = [SetStatusBarMessage "RLS could not be started"]).
Proof.
  unfold makeRlsProcess, childProcessPromise.
  destruct (launch (env w)) as [cmd args cwd|]; simpl.
  - split_and!; [by eexists | | | done].
    + split; [done | by intros (? & ? & _)].
    + split; [|done]. destruct (logToFile CONFIGURATION); simpl; intuition discriminate.
  - destruct (rustup w) as [child|reason]; simpl.
    + split_and!; [by eexists | | | done].
      * split; [done | by intros (? & _ & ?)].
      * split; [|done]. destruct (logToFile CONFIGURATION); simpl; intuition discriminate.
    + split_and!; [by eexists | | | done].
      * split; [by eexists | done].
      * split; [done | intros _; by left].
Qed.

Lemma could_not_start_only_via_rustup_witness :
  let w := {| env := {| RLS_PATH := None; RLS_ROOT := Some "" |};
              spawned := {| handle := 1 |};
              rustup := Rejected (JsString "rustup not found");
              rootPath := None; now := 0 |} in
  returned (makeRlsProcess sample_configuration w None) = Fulfilled None /\
  effects (makeRlsProcess sample_configuration w None)
  = [SetStatusBarMessage "RLS could not be started"].
Proof.
  intros w.
  apply (could_not_start_only_via_rustup sample_configuration w None).
  reflexivity.
Defined.

Section WithRuntime.
Context {rt : Runtime}.

Lemma dispatch_nonfatal CONFIGURATION s e :
  fatal e = false -> snd (dispatch CONFIGURATION s e) = Normal.
Proof.
  destruct e; simpl; try done.
  - unfold onProcessError. by destruct (code_is_ENOENT (code err)).
  - by destruct (logStream s).
  - by destruct (logStream s).
Qed.

Lemma dispatch_fatal CONFIGURATION s e :
  fatal e = true ->
  exists err, e = ProcessError err /\ code err <> CodeString "ENOENT" /\
              dispatch CONFIGURATION s e = (s, [], Throw err).
Proof.
  destruct e; simpl; try done. intros Hf. exists err.
  unfold onProcessError.
  destruct (code_is_ENOENT (code err)) eqn:Hc; [done|].
  split_and!; [done | | done].
  intros He. apply code_is_ENOENT_spec in He. congruence.
Qed.

Lemma deliver_cons_normal CONFIGURATION s e es s1 effs1 :
  dispatch CONFIGURATION s e = (s1, effs1, Normal) ->
  deliver CONFIGURATION s (e :: es) =
  (fst (fst (deliver CONFIGURATION s1 es)),
   (effs1 ++ snd (fst (deliver CONFIGURATION s1 es)))%list,
   snd (deliver CONFIGURATION s1 es)).
Proof.
  intros Hd. simpl. rewrite Hd.
  by destruct (deliver CONFIGURATION s1 es) as [[s2 effs2] k2].
Qed.

Lemma appended_log_writes n path chunk :
  appended (concat (replicate n (onLogData path chunk))) = [].
Proof. induction n as [|n IH]; [done|]. simpl. apply IH. Qed.

Lemma appended_dispatch CONFIGURATION s e :
  appended (snd (fst (dispatch CONFIGURATION s e))) =
  match e with
  | StderrData chunk =>
      if showListener s then
        match lcOutputChannel s with
        | Some _ => [chunk_toString chunk]
        | None => []
        end
      else []
  | _ => []
  end.
Proof.
  destruct e as [err| |err|chunk]; simpl.
  - unfold onProcessError. by destruct (code_is_ENOENT (code err)).
  - by destruct (logStream s).
  - by destruct (logStream s).
  - unfold appended. rewrite omap_app. fold (appended).
    assert (appended
              match logStream s with
              | Some logPath => concat (replicate (logListeners s) (onLogData logPath chunk))
              | None => []
              end = []) as Hlog
      by (destruct (logStream s); [apply appended_log_writes | done]).
    unfold appended in Hlog. rewrite Hlog, app_nil_r.
    destruct (showListener s); [|done].
    unfold onShowData. destruct (lcOutputChannel s); [|done]. simpl.
    destruct (_ <=? _); by destruct chunk.
Qed.

(** With the show listener registered and a channel at hand, the texts
    appended to the channel over a run of events are the stderr chunks of the
    run, each once and in their order of arrival; the other events of the
    session add nothing to the channel. *)
Theorem stderr_appended_in_order
    (CONFIGURATION : RLSConfiguration) (es : list Event) (s : Session)
    (ch : OutputChannel) :
  showListener s = true -> lcOutputChannel s = Some ch ->
  forallb (fun e => negb (fatal e)) es = true ->
  appended (snd (fst (deliver CONFIGURATION s es))) = map chunk_toString (chunks es).
Proof.
  revert s. induction es as [|e es IH]; intros s Hshow Hch Hes; [done|].
  simpl in Hes. apply andb_true_iff in Hes as [He Hes].
  apply negb_true_iff in He.
  pose proof (dispatch_nonfatal CONFIGURATION s e He) as Hn.
  pose proof (appended_dispatch CONFIGURATION s e) as Ha.
  destruct (dispatch CONFIGURATION s e) as [[s1 effs1] k1] eqn:Hd.
  simpl in Hn, Ha. subst k1.
  rewrite (deliver_cons_normal _ _ _ _ _ _ Hd). simpl.
  apply dispatch_fields in Hd as (Hc1 & _ & Hs1).
  unfold appended in *. rewrite omap_app, Ha.
  rewrite (IH s1); [|congruence|congruence|done].
  rewrite Hshow, Hch. unfold chunks. by destruct e.
Qed.

End WithRuntime.

Lemma stderr_appended_in_order_witness :
  let s := snd (onChildProcess sample_configuration sample_world
                  (Some sample_channel) {| handle := 1 |}) in
  appended (snd (fst (deliver (rt := languageclient_runtime) sample_configuration s
     [StderrData (ChunkString "a"); LogOpen; ProcessError enoent;
      StderrData (ChunkString "b")])))
  = ["a"; "b"].
Proof.
  intros s.
  apply (stderr_appended_in_order (rt := languageclient_runtime)
           sample_configuration
           [StderrData (ChunkString "a"); LogOpen; ProcessError enoent;
            StderrData (ChunkString "b")] s sample_channel); reflexivity.
Defined.

End LauncherExtras.

Module LogExtras.
Import Launcher LauncherFacts LogFiles LogFileFacts Observations LauncherExtras Samples.

Section WithRuntime.
Context {rt : Runtime}.

Lemma log_writes_app effs1 effs2 :
  log_writes (effs1 ++ effs2) = (log_writes effs1 ++ log_writes effs2)%list.
Proof. apply omap_app. Qed.

Lemma log_writes_replicate n path chunk :
  log_writes (concat (replicate n (onLogData path chunk)))
  = replicate n (chunk_toString chunk).
Proof. induction n as [|n IH]; [done|]. simpl. by rewrite <- IH. Qed.

Lemma log_writes_onShowData CONFIGURATION ch chunk :
  log_writes (onShowData CONFIGURATION ch chunk) = [].
Proof.
  unfold onShowData. destruct ch; [|done]. simpl. by destruct (_ <=? _).
Qed.

Lemma log_writes_dispatch CONFIGURATION s e :
  log_writes (snd (fst (dispatch CONFIGURATION s e))) =
  match e, logStream s with
  | StderrData chunk, Some _ => replicate (logListeners s) (chunk_toString chunk)
  | _, _ => []
  end.
Proof.
  destruct e as [err| |err|chunk]; simpl.
  - unfold onProcessError. by destruct (code_is_ENOENT (code err)), (logStream s).
  - by destruct (logStream s).
  - by destruct (logStream s).
  - rewrite log_writes_app.
    assert (log_writes (if showListener s
                        then onShowData CONFIGURATION (lcOutputChannel s) chunk
                        else []) = []) as ->
      by (destruct (showListener s); [apply log_writes_onShowData | done]).
    destruct (logStream s); [apply log_writes_replicate | done].
Qed.

Lemma dispatch_logListeners CONFIGURATION s e :
  logListeners (fst (fst (dispatch CONFIGURATION s e))) =
  match e, logStream s with
  | LogOpen, Some _ => S (logListeners s)
  | _, _ => logListeners s
  end.
Proof.
  destruct e as [err| |err|chunk]; simpl.
  - unfold onProcessError. by destruct (code_is_ENOENT (code err)), (logStream s).
  - by destruct (logStream s).
  - by destruct (logStream s).
  - by destruct (logStream s).
Qed.

Lemma deliver_app CONFIGURATION es1 : forall s es2,
  snd (deliver CONFIGURATION s es1) = Normal ->
  deliver CONFIGURATION s (es1 ++ es2) =
  (fst (fst (deliver CONFIGURATION (fst (fst (deliver CONFIGURATION s es1))) es2)),
   (snd (fst (deliver CONFIGURATION s es1))
    ++ snd (fst (deliver CONFIGURATION (fst (fst (deliver CONFIGURATION s es1))) es2)))%list,
   snd (deliver CONFIGURATION (fst (fst (deliver CONFIGURATION s es1))) es2)).
Proof.
  induction es1 as [|e es1 IH]; intros s es2 Hk.
  - simpl. by destruct (deliver CONFIGURATION s es2) as [[s2 effs2] k2].
  - change ((e :: es1) ++ es2)%list with (e :: (es1 ++ es2)%list).
    simpl in Hk |- *.
    destruct (dispatch CONFIGURATION s e) as [[s1 effs1] k1].
    destruct k1; [|done].
    destruct (deliver CONFIGURATION s1 es1) as [[s1' effs1'] k1'] eqn:Hd1.
    simpl in Hk. subst k1'.
    rewrite (IH s1 es2) by by rewrite Hd1.
    rewrite Hd1. simpl. by rewrite (assoc_L (++)).
Qed.

(** While no [open] event comes, the number of log listeners stays what
    it is, and each chunk is written once per listener. *)
Lemma log_writes_steady CONFIGURATION es : forall s path,
  logStream s = Some path ->
  forallb (fun e => negb (is_log_open e)) es = true ->
  forallb (fun e => negb (fatal e)) es = true ->
  snd (deliver CONFIGURATION s es) = Normal /\
  logStream (fst (fst (deliver CONFIGURATION s es))) = Some path /\
  logListeners (fst (fst (deliver CONFIGURATION s es))) = logListeners s /\
  log_writes (snd (fst (deliver CONFIGURATION s es))) =
    flat_map (fun chunk => replicate (logListeners s) (chunk_toString chunk)) (chunks es).
Proof.
  induction es as [|e es IH]; intros s path Hlog Hopen Hfatal; [done|].
  simpl in Hopen, Hfatal.
  apply andb_true_iff in Hopen as [Ho Hopen].
  apply andb_true_iff in Hfatal as [Hf Hfatal].
  apply negb_true_iff in Ho, Hf.
  pose proof (dispatch_nonfatal CONFIGURATION s e Hf) as Hn.
  pose proof (log_writes_dispatch CONFIGURATION s e) as Hw.
  pose proof (dispatch_logListeners CONFIGURATION s e) as Hl.
  destruct (dispatch CONFIGURATION s e) as [[s1 effs1] k1] eqn:Hd.
  simpl in Hn, Hw, Hl. subst k1.
  rewrite (deliver_cons_normal _ _ _ _ _ _ Hd). simpl.
  apply dispatch_fields in Hd as (_ & Hlog1 & _).
  rewrite Hlog in Hlog1, Hw, Hl.
  destruct (IH s1 path Hlog1 Hopen Hfatal) as (Hk & Hp & Hn' & Hw').
  assert (logListeners s1 = logListeners s) as Heq by (by destruct e).
  split_and!; [done | done | congruence |].
  rewrite log_writes_app, Hw, Hw', Heq.
  unfold chunks. by destruct e.
Qed.

(** With log-to-file enabled, what is written to the log stream of a
    session is the stderr text that arrives after the stream has opened, each
    chunk once and in order; the chunks that arrive before the [open] event
    are not written. *)
Theorem log_written_after_open
    (CONFIGURATION : RLSConfiguration) (w : World) (ch : option OutputChannel)
    (s0 : Session) (before after : list Event) :
  logToFile CONFIGURATION = true ->
  session (makeRlsProcess CONFIGURATION w ch) = Some s0 ->
  forallb (fun e => negb (is_log_open e)) (before ++ after) = true ->
  forallb (fun e => negb (fatal e)) (before ++ after) = true ->
  log_writes (snd (fst (deliver CONFIGURATION s0 before))) = [] /\
  log_writes (snd (fst (deliver CONFIGURATION s0 (before ++ LogOpen :: after))))
  = map chunk_toString (chunks after).
Proof.
  intros Hcfg Hs0 Hopen Hfatal.
  rewrite forallb_app in Hopen, Hfatal.
  apply andb_true_iff in Hopen as [Hob Hoa].
  apply andb_true_iff in Hfatal as [Hfb Hfa].
  pose proof Hs0 as Hfresh. unfold makeRlsProcess in Hfresh.
  destruct (childProcessPromise w) as [child|]; [|done].
  simpl in Hfresh. injection Hfresh as Hfresh.
  assert (logListeners s0 = 0%nat) as H0 by by subst s0.
  apply makeRlsProcess_session in Hs0 as (_ & _ & Hlog & _).
  rewrite Hcfg in Hlog.
  assert (forall l : list Chunk,
            flat_map (fun chunk => replicate 0 (chunk_toString chunk)) l = []) as Hnone
    by (induction l; done).
  assert (forall l : list Chunk,
            flat_map (fun chunk => replicate 1 (chunk_toString chunk)) l
            = map chunk_toString l) as Hone
    by (induction l as [|c l IHl]; [done | simpl; f_equal; exact IHl]).
  destruct (log_writes_steady CONFIGURATION before s0 _ Hlog Hob Hfb)
    as (Hk & Hp & Hn & Hw).
  rewrite H0, Hnone in Hw. split; [done|].
  rewrite (deliver_app _ _ _ _ Hk). simpl.
  set (s1 := fst (fst (deliver CONFIGURATION s0 before))) in *.
  rewrite Hp.
  set (s2 := {| childProcess := childProcess s1;
                lcOutputChannel := lcOutputChannel s1;
                logStream := Some (logPath (rootPath w) (now w));
                logListeners := S (logListeners s1);
                showListener := showListener s1 |}).
  destruct (log_writes_steady CONFIGURATION after s2 _ eq_refl Hoa Hfa)
    as (_ & _ & _ & Hw2).
  destruct (deliver CONFIGURATION s2 after) as [[s3 effs3] k3].
  simpl in *. by rewrite log_writes_app, Hw, Hw2, Hn, H0, Hone.
Qed.

(** What is switched off in the configuration stays off for the whole
    session: with log-to-file disabled no stream is ever created, written or
    ended, and with show-stderr-in-output disabled nothing is ever appended
    to the channel nor the channel shown, whatever events arrive. *)
Theorem disabled_outputs_stay_silent
    (CONFIGURATION : RLSConfiguration) (w : World) (ch : option OutputChannel)
    (s0 : Session) (es : list Event) :
  session (makeRlsProcess CONFIGURATION w ch) = Some s0 ->
  let effs := (effects (makeRlsProcess CONFIGURATION w ch)
               ++ snd (fst (deliver CONFIGURATION s0 es)))%list in
  (logToFile CONFIGURATION = false -> Forall (fun e => touches e = None) effs) /\
  (showStderrInOutputChannel CONFIGURATION = false -> channel_effects effs = []).
Proof.
  intros Hs0 effs.
  apply makeRlsProcess_session in Hs0 as (_ & Hshow & Hlog & Heffs).
  split.
  - intros Hoff. rewrite Hoff in Hlog, Heffs. unfold effs. rewrite Heffs. simpl.
    pose proof (deliver_touches CONFIGURATION es s0) as Hall.
    eapply Forall_impl; [exact Hall|]. simpl. intros e He.
    destruct (touches e) as [path|] eqn:Ht; [|done].
    specialize (He path eq_refl). congruence.
  - intros Hoff. rewrite Hoff in Hshow. unfold effs.
    rewrite channel_effects_app.
    assert (channel_effects (effects (makeRlsProcess CONFIGURATION w ch)) = []) as ->
      by (rewrite Heffs; by destruct (logToFile CONFIGURATION)).
    simpl. clear Hlog Heffs effs. revert s0 Hshow.
    induction es as [|e es IH]; intros s0 Hshow; [done|].
    assert (channel_effects (snd (fst (dispatch CONFIGURATION s0 e))) = []) as Hd0.
    { destruct e as [err| |err|chunk].
      - simpl. unfold onProcessError. by destruct (code_is_ENOENT (code err)).
      - simpl. by destruct (logStream s0).
      - simpl. by destruct (logStream s0).
      - by rewrite channel_effects_data, Hshow. }
    simpl. destruct (dispatch CONFIGURATION s0 e) as [[s1 effs1] k1] eqn:Hd.
    simpl in Hd0. destruct k1; [|done].
    apply dispatch_fields in Hd as (_ & _ & Hs1).
    specialize (IH s1 ltac:(congruence)).
    destruct (deliver CONFIGURATION s1 es) as [[s2 effs2] k2]. simpl in *.
    by rewrite channel_effects_app, Hd0, IH.
Qed.

End WithRuntime.

Lemma log_written_after_open_witness :
  let s0 := snd (onChildProcess sample_configuration sample_world
                   (Some sample_channel) {| handle := 1 |}) in
  log_writes (snd (fst (deliver (rt := languageclient_runtime) sample_configuration s0
     ([StderrData (ChunkString "early")]
      ++ LogOpen :: [StderrData (ChunkString "a"); StderrData (ChunkString "b")]))))
  = ["a"; "b"].
Proof.
  intros s0.
  apply (log_written_after_open (rt := languageclient_runtime)
           sample_configuration sample_world (Some sample_channel) s0
           [StderrData (ChunkString "early")]
           [StderrData (ChunkString "a"); StderrData (ChunkString "b")]);
    reflexivity.
Defined.

Lemma disabled_outputs_stay_silent_witness :
  let cfg := {| logToFile := false; showStderrInOutputChannel := false;
                revealOutputChannelOn := RevealInfo |} in
  let s0 := snd (onChildProcess cfg sample_world (Some sample_channel)
                   {| handle := 1 |}) in
  channel_effects
    (effects (makeRlsProcess cfg sample_world (Some sample_channel))
     ++ snd (fst (deliver (rt := languageclient_runtime) cfg s0
                    [StderrData (ChunkString "a"); LogOpen])))
  = [].
Proof.
  intros cfg s0.
  apply (disabled_outputs_stay_silent (rt := languageclient_runtime)
           cfg sample_world (Some sample_channel) s0
           [StderrData (ChunkString "a"); LogOpen]);
    reflexivity.
Defined.

End LogExtras.

Module PathExtras.
Import Launcher LauncherFacts LogFiles LogFileFacts RlsToml.

(** For workspaces with a root, the path of the log file determines both
    the root and the timestamp: two session starts share a log file only if
    they have the same workspace root and the same timestamp. *)
Theorem logPath_determines_root_and_time (r1 r2 : string) (t1 t2 : Z) :
  logPath (Some r1) t1 = logPath (Some r2) t2 <-> r1 = r2 /\ t1 = t2.
Proof.
  split; [|by intros [-> ->]].
  intros Heq. pose proof (logPath_inj _ _ _ _ Heq) as ->. split; [|done].
  unfold logPath in Heq.
  apply (f_equal list_ascii_of_string) in Heq.
  rewrite !list_ascii_of_string_append in Heq.
  apply app_inv_tail in Heq.
  by apply list_ascii_of_string_inj.
Qed.

(** The path of a log file is never the path of the deprecated
    configuration file, so that no session creates, truncates or writes
    [rls.toml]: every file effect of a launch and of the events after it is
    on another path. *)
Theorem rls_toml_never_touched {rt : Runtime}
    (CONFIGURATION : RLSConfiguration) (w : World) (ch : option OutputChannel)
    (root : option string) (es : list Event) :
  (forall root' now, logPath root' now <> tomlPath root) /\
  Forall (fun e => touches e <> Some (tomlPath root))
    (effects (makeRlsProcess CONFIGURATION w ch)) /\
  (forall s0, session (makeRlsProcess CONFIGURATION w ch) = Some s0 ->
     Forall (fun e => touches e <> Some (tomlPath root))
       (snd (fst (deliver CONFIGURATION s0 es)))).
Proof.
  assert (forall root' now, logPath root' now <> tomlPath root) as Hne.
  { intros root' now Heq. unfold logPath, tomlPath in Heq.
    apply (f_equal list_ascii_of_string) in Heq.
    rewrite !list_ascii_of_string_append in Heq.
    apply (f_equal (@List.rev ascii)) in Heq.
    rewrite !rev_app_distr in Heq. simpl in Heq. discriminate Heq. }
  split_and!; [done | |].
  - unfold makeRlsProcess. destruct (childProcessPromise w); simpl.
    + destruct (logToFile CONFIGURATION); repeat constructor.
      simpl. intros [= Heq]. by apply Hne in Heq.
    + by repeat constructor.
  - intros s0 Hs0.
    apply makeRlsProcess_session in Hs0 as (_ & _ & Hlog & _).
    eapply Forall_impl; [apply deliver_touches|]. simpl.
    intros e He Ht. specialize (He _ Ht). rewrite Hlog in He.
    destruct (logToFile CONFIGURATION); [|done].
    injection He as He. by apply Hne in He.
Qed.

End PathExtras.

Module ActivatedExtras.
Import Launcher LauncherFacts Activate Activated Samples.

Section WithRuntime.
Context {rt : Runtime}.

Lemma step_forwarding CONFIGURATION out c st c' effs k :
  no_assign st = true -> forwarding CONFIGURATION out c ->
  step CONFIGURATION c st = (c', effs, k) ->
  forwarding CONFIGURATION out c'.
Proof.
  intros Hst [Hvar Hcur]. destruct st as [ch|w|e]; [done| |]; simpl.
  - intros [= <- _ _]. split; [done|]. simpl.
    destruct (session (makeRlsProcess CONFIGURATION w (Activate.lcOutputChannel c)))
      as [s0|] eqn:Hs0; [|done].
    intros s [= <-].
    apply makeRlsProcess_session in Hs0 as (Hc & Hs & _). split; congruence.
  - destruct (current c) as [s|] eqn:Hc.
    + destruct (dispatch CONFIGURATION s e) as [[s' effs'] k'] eqn:Hd.
      apply dispatch_fields in Hd as (Hch & _ & Hsh).
      intros [= <- _ _]. split; [done|]. simpl. intros s1 [= <-].
      destruct (Hcur s eq_refl). split; congruence.
    + intros [= <- _ _]. split; [done|]. by rewrite Hc.
Qed.

Lemma exec_forwarding CONFIGURATION out l : forall c,
  forallb no_assign l = true -> forwarding CONFIGURATION out c ->
  forwarding CONFIGURATION out (fst (exec CONFIGURATION c l)).
Proof.
  induction l as [|st l IH]; intros c Hl Hc; [done|].
  simpl in Hl. apply andb_true_iff in Hl as [Hst Hl]. simpl.
  destruct (step CONFIGURATION c st) as [[c' effs] k] eqn:Hstep.
  pose proof (step_forwarding _ _ _ _ _ _ _ Hst Hc Hstep) as Hc'.
  destruct k; [by apply IH | done].
Qed.

(** After [activate], which assigns the channel before it starts the
    client, every session that the client launches, the first and those of
    later restarts, holds the channel of the client: with show-stderr enabled
    each stderr chunk that reaches the current session is appended to that
    channel, none being dropped for want of a channel. *)
Theorem sessions_after_activation_forward
    (CONFIGURATION : RLSConfiguration) (out : OutputChannel) (l : list Step)
    (s : Session) (chunk : Chunk) :
  forallb no_assign l = true ->
  current (fst (exec CONFIGURATION (activated out) l)) = Some s ->
  Launcher.lcOutputChannel s = Some out /\
  (showStderrInOutputChannel CONFIGURATION = true ->
   In (ChannelAppend out (chunk_toString chunk))
      (snd (fst (dispatch CONFIGURATION s (StderrData chunk))))).
Proof.
  intros Hl Hcur.
  assert (forwarding CONFIGURATION out (activated out)) as H0 by by split.
  destruct (exec_forwarding CONFIGURATION out l _ Hl H0) as [_ Hinv].
  destruct (Hinv s Hcur) as [Hch Hsh]. split; [done|].
  intros Hshow. simpl. rewrite Hsh, Hshow, Hch. simpl. left. by destruct chunk.
Qed.

End WithRuntime.

Lemma sessions_after_activation_forward_witness :
  let l := [ServerOptions sample_world; Emit (ProcessError enoent);
            ServerOptions sample_world] in
  let s := snd (onChildProcess sample_configuration sample_world
                  (Some sample_channel) {| handle := 1 |}) in
  In (ChannelAppend sample_channel "x")
     (snd (fst (dispatch (rt := languageclient_runtime) sample_configuration s
                  (StderrData (ChunkString "x"))))).
Proof.
  intros l s.
  apply (sessions_after_activation_forward (rt := languageclient_runtime)
           sample_configuration sample_channel l s (ChunkString "x"));
    reflexivity.
Defined.

End ActivatedExtras.

Module BuildTasksExtras.
Import BuildTasks.

(** [addBuildCommands] never overwrites a task configuration that is
    there: with a truthy value under ["tasks"] the settings are left as they
    are, and in every case all other settings keep their values. *)
Theorem addBuildCommands_preserves (config : gmap string Json) :
  (truthy (config !! "tasks") = true -> addBuildCommands config = config) /\
  (forall key, key <> "tasks" -> addBuildCommands config !! key = config !! key).
Proof.
  unfold addBuildCommands. split.
  - by intros ->.
  - intros key Hkey. destruct (truthy (config !! "tasks")); [done|].
    by rewrite lookup_insert_ne.
Qed.

Lemma addBuildCommands_preserves_witness :
  let config : gmap string Json :=
    {["tasks" := JObject [("command", JString "make")]]} in
  addBuildCommands config = config.
Proof.
  intros config. apply (proj1 (addBuildCommands_preserves config)). reflexivity.
Defined.



End BuildTasksExtras.

Module LogContentExtras.
Import Launcher LauncherFacts LogFiles LogFileFacts Observations LauncherExtras Samples.

Lemma append_assoc (a b c : string) : (a +:+ b) +:+ c = a +:+ (b +:+ c).
Proof.
  induction a as [|x a IH]; [done|].
  change (String x ((a +:+ b) +:+ c) = String x (a +:+ (b +:+ c))).
  by rewrite IH.
Qed.

Lemma run_app fs effs1 effs2 : run fs (effs1 ++ effs2) = run (run fs effs1) effs2.
Proof. unfold run. apply fold_left_app. Qed.

Section WithRuntime.
Context {rt : Runtime}.

Lemma run_onShowData CONFIGURATION ch chunk fs :
  run fs (onShowData CONFIGURATION ch chunk) = fs.
Proof.
  unfold onShowData. destruct ch; [|done]. simpl. by destruct (_ <=? _).
Qed.

(** One chunk, with the stream open and one log listener attached, is
    appended to the file of the stream. *)
Lemma run_chunk CONFIGURATION s path chunk fs content :
  logStream s = Some path -> logListeners s = 1%nat ->
  path ∈ writable fs -> files fs !! path = Some content ->
  let fs' := run fs (snd (fst (dispatch CONFIGURATION s (StderrData chunk)))) in
  path ∈ writable fs' /\
  files fs' !! path = Some (content +:+ chunk_toString chunk).
Proof.
  intros Hlog Hone Hw Hc. simpl. rewrite Hlog, Hone. simpl.
  rewrite run_app.
  assert (run fs (if showListener s
                  then onShowData CONFIGURATION (lcOutputChannel s) chunk
                  else []) = fs) as ->
    by (destruct (showListener s); [apply run_onShowData | done]).
  simpl. rewrite decide_True by done. simpl.
  split; [done|]. by rewrite lookup_alter_eq, Hc.
Qed.

Lemma run_chunks CONFIGURATION s path (cs : list Chunk) : forall fs content,
  logStream s = Some path -> logListeners s = 1%nat ->
  path ∈ writable fs -> files fs !! path = Some content ->
  files (run fs (snd (fst (deliver CONFIGURATION s (map StderrData cs))))) !! path
  = Some (content +:+ foldr String.append "" (map chunk_toString cs)).
Proof.
  induction cs as [|c cs IH]; intros fs content Hlog Hone Hw Hc.
  - simpl. by rewrite DeglobTheorems.append_empty_r.
  - change (map StderrData (c :: cs)) with (StderrData c :: map StderrData cs).
    rewrite (deliver_cons_normal CONFIGURATION s (StderrData c) _ s
               (snd (fst (dispatch CONFIGURATION s (StderrData c))))) by done.
    cbn [fst snd]. rewrite run_app.
    destruct (run_chunk CONFIGURATION s path c fs content Hlog Hone Hw Hc) as [Hw' Hc'].
    rewrite (IH _ _ Hlog Hone Hw' Hc').
    change (foldr String.append "" (map chunk_toString (c :: cs)))
      with (chunk_toString c +:+ foldr String.append "" (map chunk_toString cs)).
    by rewrite append_assoc.
Qed.

(** With log-to-file enabled, after a launch, the opening of the stream and
    a run of stderr chunks, the log file holds the text of those chunks, in
    order, and nothing else: what the file held before the launch is gone. *)
Theorem log_file_holds_stderr
    (CONFIGURATION : RLSConfiguration) (w : World) (ch : option OutputChannel)
    (s0 : Session) (fs : FS) (cs : list Chunk) :
  logToFile CONFIGURATION = true ->
  session (makeRlsProcess CONFIGURATION w ch) = Some s0 ->
  files (run fs (effects (makeRlsProcess CONFIGURATION w ch)
                 ++ snd (fst (deliver CONFIGURATION s0 (LogOpen :: map StderrData cs)))))
    !! logPath (rootPath w) (now w)
  = Some (foldr String.append "" (map chunk_toString cs)).
Proof.
  intros Hcfg Hs0.
  pose proof Hs0 as Hfresh. unfold makeRlsProcess in Hfresh.
  destruct (childProcessPromise w) as [child|]; [|done].
  simpl in Hfresh. injection Hfresh as Hfresh.
  assert (logListeners s0 = 0%nat) as H0 by by subst s0.
  apply makeRlsProcess_session in Hs0 as (_ & _ & Hlog & ->).
  rewrite Hcfg in Hlog |- *. clear Hfresh.
  rewrite run_app. simpl run at 2.
  simpl deliver. rewrite Hlog.
  set (s1 := {| childProcess := childProcess s0;
                lcOutputChannel := lcOutputChannel s0;
                logStream := Some (logPath (rootPath w) (now w));
                logListeners := S (logListeners s0);
                showListener := showListener s0 |}).
  pose proof (run_chunks CONFIGURATION s1 (logPath (rootPath w) (now w)) cs
                (apply fs (CreateWriteStream (logPath (rootPath w) (now w)) "w+")) ""
                eq_refl) as Hrun.
  destruct (deliver CONFIGURATION s1 (map StderrData cs)) as [[s2 effs2] k2].
  simpl in *. apply Hrun.
  - by rewrite H0.
  - set_solver.
  - by rewrite lookup_insert_eq.
Qed.

End WithRuntime.

Lemma log_file_holds_stderr_witness :
  let s0 := snd (onChildProcess sample_configuration sample_world None
                   {| handle := 1 |}) in
  let fs := {| files := {["/home/me/project/rls1500000000000.log" := "stale"]};
               writable := ∅ |} in
  files (run fs
           (effects (makeRlsProcess sample_configuration sample_world None)
            ++ snd (fst (deliver (rt := languageclient_runtime) sample_configuration s0
                 (LogOpen :: map StderrData [ChunkString "a"; ChunkString "b"])))))
    !! logPath (rootPath sample_world) (now sample_world)
  = Some "ab".
Proof.
  intros s0 fs.
  apply (log_file_holds_stderr (rt := languageclient_runtime)
           sample_configuration sample_world None s0 fs
           [ChunkString "a"; ChunkString "b"]); reflexivity.
Defined.

End LogContentExtras.

Module ExtraWitnesses.
Import Launcher Observations LauncherExtras PathExtras LogFiles RlsToml Samples.

Lemma rls_toml_never_touched_witness :
  let s0 := snd (onChildProcess sample_configuration sample_world None
                   {| handle := 1 |}) in
  Forall (fun e => touches e <> Some (tomlPath (Some "/home/me/project")))
    (snd (fst (deliver (rt := languageclient_runtime) sample_configuration s0
                 [LogOpen; StderrData (ChunkString "a")]))).
Proof.
  intros s0.
  apply (proj2 (proj2 (rls_toml_never_touched (rt := languageclient_runtime)
                         sample_configuration sample_world None
                         (Some "/home/me/project")
                         [LogOpen; StderrData (ChunkString "a")])) s0).
  reflexivity.
Defined.

End ExtraWitnesses.

Module TurnTheorems.
Import Launcher LauncherFacts Turn Samples.

Section WithRuntime.
Context {rt : Runtime}.

(** C3.  With the binary-path variable set (to a non-empty path) the
    promise that [makeRlsProcess] returns is fulfilled with the spawned
    process object.  When that binary does not exist, the child's [error]
    event with code "ENOENT" is emitted from the [nextTick] queue, before the
    promise job of line 39 has registered the listener of line 40: the error
    is thrown uncaught, with no effect performed (no warning shown) and no
    listener registered by then.  Were the listener registered before the emission, the same event
    would be logged, the warning "Could not start RLS" shown, and the
    listener would complete normally. *)
Theorem missing_binary_uncaught
    (CONFIGURATION : RLSConfiguration) (w : World)
    (ch : option OutputChannel) (rls_path : string) (err : JsError) :
  RLS_PATH (env w) = Some rls_path -> rls_path <> "" ->
  code err = CodeString "ENOENT" ->
  launch (env w) = Spawn rls_path [] None /\
  returned (makeRlsProcess CONFIGURATION w ch) = Fulfilled (Some (spawned w)) /\
  run CONFIGURATION w ch None (pending (Some err)) = (None, [], Throw err) /\
  exists s,
    session (makeRlsProcess CONFIGURATION w ch) = Some s /\
    run CONFIGURATION w ch None (PromiseJobs :: ticks (Some err)) =
    (Some s,
     (effects (makeRlsProcess CONFIGURATION w ch)
      ++ [ConsoleError ["Could not spawn RLS process: "; message err];
          ShowWarningMessage "Could not start RLS"])%list,
     Normal).
Proof.
  intros Hp Hne He.
  destruct rls_path as [|c p]; [done|].
  pose proof (launch_path _ _ _ Hp) as Hl.
  assert (childProcessPromise w = Fulfilled (spawned w)) as Hf
    by (unfold childProcessPromise; by rewrite Hl).
  split_and!; [done | by rewrite (makeRlsProcess_fulfilled _ _ _ _ Hf) | done |].
  rewrite (makeRlsProcess_fulfilled _ _ _ _ Hf).
  eexists. split; [done|].
  simpl. rewrite (makeRlsProcess_fulfilled _ _ _ _ Hf). simpl.
  unfold onProcessError. by rewrite He.
Qed.

End WithRuntime.

Lemma missing_binary_uncaught_witness :
  run (rt := languageclient_runtime) sample_configuration sample_world
    (Some sample_channel) None (pending (Some enoent))
  = (None, [], Throw enoent).
Proof.
  apply (missing_binary_uncaught (rt := languageclient_runtime)
           sample_configuration sample_world (Some sample_channel)
           "/nonexistent" enoent);
    [reflexivity | discriminate | reflexivity].
Defined.

End TurnTheorems.
